(** * A proof-of-work chain node: block hashing, mining, validation, ledger

    Shallow embedding of the node core found in [blockchain.py] (the socket
    binding) and [blockchain_render.py] (the HTTP binding): [Block],
    [Block.compute_hash], [Block.mine], [Blockchain.add_transaction],
    [Blockchain.mine_pending], [Blockchain.is_valid_block] and the two
    inbound-block handlers.

    Conventions.
    - A Python [float] is held as the rational [Qc] it stands for.  The
      ledger arithmetic is given twice: [credit], [debit], [apply_txs],
      [reward] and [mine_pending] compute the exact sums and differences,
      which is what the code computes as long as no result needs rounding
      (every value of [total_minted] reachable from genesis is a multiple of
      6.25 below 2^25, on which binary64 arithmetic is exact); [credit64],
      [debit64], [apply_txs64], [reward64] and [mine_pending64] round every
      result to binary64, as Python does, and agree with the former wherever
      nothing is rounded.  What is said of the sum of the balances is said
      of the rounded definitions.
    - [time.time()] is an explicit argument [now] of whatever reads the clock.
    - [hashlib.sha256] is FIPS 180-4 SHA-256, written out below; [json.dumps]
      is written out for the shapes the node hashes; the text Python prints
      for a float is a parameter ([float_repr]) of the definitions, and
      [python_repr], the shortest digits that read back, in the runs.
    - The snapshot on disk and the set of peers are modelled as data;
      sockets, HTTP routes and broadcasting are left out: they never feed
      back into chain, mempool, ledger or counter. *)

From Stdlib Require Import ZArith QArith Qcanon List Ascii String Lia.
From Stdlib Require PrimFloat FloatOps SpecFloat.
From stdpp Require Import base numbers list strings pretty gmap fin_maps.

Local Open Scope Z_scope.

(** ** SHA-256 (hashlib.sha256), on 32-bit words held in [Z] *)

Module SHA256.

Definition w32 (x : Z) : Z := x mod 2 ^ 32.
Definition add32 (x y : Z) : Z := w32 (x + y).
Definition rotr (n x : Z) : Z :=
  Z.lor (Z.shiftr x n) (w32 (Z.shiftl x (32 - n))).
Definition shr (n x : Z) : Z := Z.shiftr x n.

Definition Ch (x y z : Z) : Z := Z.lxor (Z.land x y) (Z.land (Z.lnot x) z).
Definition Maj (x y z : Z) : Z :=
  Z.lxor (Z.lxor (Z.land x y) (Z.land x z)) (Z.land y z).
Definition Sigma0 (x : Z) : Z := Z.lxor (Z.lxor (rotr 2 x) (rotr 13 x)) (rotr 22 x).
Definition Sigma1 (x : Z) : Z := Z.lxor (Z.lxor (rotr 6 x) (rotr 11 x)) (rotr 25 x).
Definition sigma0 (x : Z) : Z := Z.lxor (Z.lxor (rotr 7 x) (rotr 18 x)) (shr 3 x).
Definition sigma1 (x : Z) : Z := Z.lxor (Z.lxor (rotr 17 x) (rotr 19 x)) (shr 10 x).

(** The constants of FIPS 180-4, by their definition: the first 32 bits of
    the fractional parts of the cube roots (round constants) and of the
    square roots (initial state) of the first primes. *)
Definition is_prime (n : Z) : bool :=
  (1 <? n) && forallb (fun d => negb (n mod d =? 0)) (seqZ 2 (n - 2)).

Definition primes : list Z := List.filter is_prime (seqZ 2 310).

(** Integer cube root, one bit at a time from bit [n - 1] down. *)
Fixpoint cbrt_bits (n : nat) (x r : Z) : Z :=
  match n with
  | O => r
  | S k =>
      let c := r + 2 ^ Z.of_nat k in
      cbrt_bits k x (if c * c * c <=? x then c else r)
  end.

Definition K : list Z :=
  Eval vm_compute in map (fun p => w32 (cbrt_bits 36 (p * 2 ^ 96) 0)) primes.

Definition H0 : list Z :=
  Eval vm_compute in map (fun p => w32 (Z.sqrt (p * 2 ^ 64))) (take 8 primes).

(** Padding: a 1 bit, zeros up to 56 mod 64 bytes, the bit length on 8 bytes. *)
Fixpoint be_bytes (n : nat) (x : Z) : list Z :=
  match n with
  | O => []
  | S k => be_bytes k (x / 256) ++ [x mod 256]
  end.

Definition pad (msg : list Z) : list Z :=
  let len := Z.of_nat (length msg) in
  let zeros := Z.to_nat ((55 - len) mod 64) in
  msg ++ [0x80] ++ repeat 0 zeros ++ be_bytes 8 (8 * len).

Fixpoint be_words (fuel : nat) (bs : list Z) : list Z :=
  match fuel, bs with
  | S k, b0 :: b1 :: b2 :: b3 :: rest =>
      (((b0 * 256 + b1) * 256 + b2) * 256 + b3) :: be_words k rest
  | _, _ => []
  end.

(** Message schedule: the window holds the last 16 words, oldest first. *)
Fixpoint extend (n : nat) (win : list Z) : list Z :=
  match n with
  | O => []
  | S k =>
      let w := add32 (add32 (sigma1 (nth 14 win 0)) (nth 9 win 0))
                     (add32 (sigma0 (nth 1 win 0)) (nth 0 win 0)) in
      w :: extend k (tl win ++ [w])
  end.

Definition schedule (blk : list Z) : list Z := blk ++ extend 48 blk.

Definition round (st : list Z) (kw : Z * Z) : list Z :=
  match st with
  | [a; b; c; d; e; f; g; h] =>
      let t1 := add32 (add32 (add32 h (Sigma1 e)) (add32 (Ch e f g) (fst kw))) (snd kw) in
      let t2 := add32 (Sigma0 a) (Maj a b c) in
      [add32 t1 t2; a; b; c; add32 d t1; e; f; g]
  | _ => st
  end.

Definition compress (st : list Z) (blk : list Z) : list Z :=
  zip_with add32 st (fold_left round (combine K (schedule blk)) st).

Fixpoint blocks (fuel : nat) (ws : list Z) (st : list Z) : list Z :=
  match fuel with
  | O => st
  | S k =>
      match ws with
      | [] => st
      | _ => blocks k (drop 16 ws) (compress st (take 16 ws))
      end
  end.

Definition digest_words (msg : list Z) : list Z :=
  let bs := pad msg in
  let ws := be_words (length bs) bs in
  blocks (length ws) ws H0.

(** [hexdigest]: eight lower-case hexadecimal digits per word. *)
Definition hex_chars : list ascii :=
  ["0"; "1"; "2"; "3"; "4"; "5"; "6"; "7"; "8"; "9"; "a"; "b"; "c"; "d"; "e"; "f"]%char.

Definition hex_digit (d : Z) : ascii := nth (Z.to_nat (d mod 16)) hex_chars "0"%char.

Fixpoint hex_be (n : nat) (x : Z) (acc : string) : string :=
  match n with
  | O => acc
  | S k => hex_be k (x / 16) (String (hex_digit x) acc)
  end.

Definition hex_words (ws : list Z) : string :=
  fold_right (fun w acc => hex_be 8 w acc) EmptyString ws.

Definition bytes_of_string (s : string) : list Z :=
  map (fun c => Z.of_N (N_of_ascii c)) (list_ascii_of_string s).

(** [hashlib.sha256(s.encode()).hexdigest()] for a string of code points
    below 128 (all that [json.dumps] emits with its default [ensure_ascii]). *)
Definition hexdigest (s : string) : string :=
  hex_words (digest_words (bytes_of_string s)).

End SHA256.


(** ** Python values used by the node *)

Local Open Scope Qc_scope.

(** A JSON number is an [int] or a [float]; they print differently
    ([5] and [5.0]) and compare by value ([5 == 5.0]). *)
Inductive pynum : Type :=
  | PyInt (z : Z)
  | PyFloat (q : Qc).

Definition num_val (n : pynum) : Qc :=
  match n with
  | PyInt z => Qc_of_Z z
  | PyFloat q => q
  end.

(** Truth value of a number: everything but zero. *)
Definition truthy (n : pynum) : bool := negb (bool_decide (num_val n = 0)).

(** [min(a, b)] returns [a] unless [b < a]. *)
Definition py_min (a b : Qc) : Qc := if decide (b < a) then b else a.

Inductive exn : Type :=
  | ValueError (msg : string)
  | IndexError
  | AttributeError (name : string)
  | TypeError.

(** What a call does: return a value, raise, or still be running when the
    fuel of the model is spent (only [Block.mine] loops). *)
Inductive outcome (A : Type) : Type :=
  | Returns (a : A)
  | Raises (e : exn)
  | Running.
Arguments Returns {A} a.
Arguments Raises {A} e.
Arguments Running {A}.

(** ** Configuration *)

Definition MAX_SUPPLY : Qc := Qc_of_Z 21000000.
Definition BLOCK_REWARD : Qc := Q2Qc (25 # 4).
Definition DIFFICULTY : Z := 4.

(** ** Transactions and blocks *)

Record Tx : Type := mkTx {
  sender : string;
  recipient : string;
  amount : pynum
}.

(** The attributes of a [Block] object; also the six keys of [vars(block)],
    the shape in which a block travels between nodes. *)
Record Block : Type := mkBlock {
  index : Z;
  prev_hash : string;
  timestamp : pynum;
  transactions : list Tx;
  nonce : Z;
  hash : string
}.

Definition set_hash (b : Block) (h : string) : Block :=
  mkBlock (index b) (prev_hash b) (timestamp b) (transactions b) (nonce b) h.

Definition set_nonce (b : Block) (n : Z) : Block :=
  mkBlock (index b) (prev_hash b) (timestamp b) (transactions b) n (hash b).

(** ** json.dumps(..., sort_keys=True) on the dictionary that is hashed *)

Definition dquote : string := String "034"%char EmptyString.

Definition code (c : ascii) : Z := Z.of_N (N_of_ascii c).

(** [ensure_ascii] escaping of one character: the short escapes, [\uXXXX]
    for everything outside [' '..'~'], the character itself otherwise. *)
Definition escape_char (c : ascii) : string :=
  let n := code c in
  if (n =? 34)%Z then "\" +:+ dquote
  else if (n =? 92)%Z then "\\"
  else if (n =? 10)%Z then "\n"
  else if (n =? 13)%Z then "\r"
  else if (n =? 9)%Z then "\t"
  else if (n =? 8)%Z then "\b"
  else if (n =? 12)%Z then "\f"
  else if ((n <? 32) || (126 <? n))%Z then "\u" +:+ SHA256.hex_be 4 n ""
  else String c "".

Fixpoint escape (s : string) : string :=
  match s with
  | EmptyString => EmptyString
  | String c r => escape_char c +:+ escape r
  end.

Definition json_str (s : string) : string := dquote +:+ escape s +:+ dquote.

Definition json_key (k : string) : string := dquote +:+ k +:+ dquote +:+ ": ".

Definition json_list (items : list string) : string :=
  "[" +:+ String.concat ", " items +:+ "]".

(** ['0' * n]; empty when [n] is not positive. *)
Definition zeros (n : Z) : string :=
  String.concat "" (repeat "0"%string (Z.to_nat n)).

(** ** Two printers to run the model with

    [decimal_repr] prints a rational with a short decimal expansion the way
    Python prints the float of that value (1700000000.5, 6.25, 5.0); it is
    what concrete runs below use.  [fraction_repr] prints numerator and
    denominator, and is injective on all of [Qc]. *)
Fixpoint frac_digits (fuel : nat) (r d : Z) : string :=
  match fuel with
  | O => EmptyString
  | S k =>
      if (r =? 0)%Z then EmptyString
      else String (SHA256.hex_digit (10 * r / d)) (frac_digits k (10 * r mod d) d)
  end.

Definition decimal_repr (q : Qc) : string :=
  let n := Qnum q in
  let d := Zpos (Qden q) in
  let a := Z.abs n in
  let frac := frac_digits 17 (a mod d) d in
  (if (n <? 0)%Z then "-" else "") +:+ pretty (a / d)%Z +:+ "."
  +:+ (if String.eqb frac "" then "0" else frac).

Definition fraction_repr (q : Qc) : string :=
  pretty (Qnum q) +:+ "/" +:+ pretty (Zpos (Qden q)).

Section Node.

(** The text [float.__repr__] prints for a float. *)
Variable float_repr : Qc -> string.

Definition json_num (n : pynum) : string :=
  match n with
  | PyInt z => pretty z
  | PyFloat q => float_repr q
  end.

(** Keys come out sorted: amount, recipient, sender. *)
Definition dumps_tx (tx : Tx) : string :=
  "{" +:+ json_key "amount" +:+ json_num (amount tx)
  +:+ ", " +:+ json_key "recipient" +:+ json_str (recipient tx)
  +:+ ", " +:+ json_key "sender" +:+ json_str (sender tx) +:+ "}".

(** Keys come out sorted: index, nonce, prev_hash, timestamp, transactions. *)
Definition dumps_block (b : Block) : string :=
  "{" +:+ json_key "index" +:+ pretty (index b)
  +:+ ", " +:+ json_key "nonce" +:+ pretty (nonce b)
  +:+ ", " +:+ json_key "prev_hash" +:+ json_str (prev_hash b)
  +:+ ", " +:+ json_key "timestamp" +:+ json_num (timestamp b)
  +:+ ", " +:+ json_key "transactions"
  +:+ json_list (map dumps_tx (transactions b)) +:+ "}".

(** ** class Block *)

(** [Block.compute_hash]: reads the five fields, never [self.hash]. *)
Definition compute_hash (b : Block) : string :=
  SHA256.hexdigest (dumps_block b).

(** [Block.__init__]: [timestamp or time.time()], then the hash. *)
Definition Block_init (now : Qc) (index : Z) (prev_hash : string)
    (transactions : list Tx) (timestamp : option pynum) (nonce : Z) : Block :=
  let ts := match timestamp with
            | Some t => if truthy t then t else PyFloat now
            | None => PyFloat now
            end in
  let self := mkBlock index prev_hash ts transactions nonce EmptyString in
  set_hash self (compute_hash self).

(** The body of the loop of [Block.mine]: [self.nonce += 1], then
    [self.hash = self.compute_hash()]. *)
Definition next_nonce (self : Block) : Block :=
  let self1 := set_nonce self (nonce self + 1) in
  set_hash self1 (compute_hash self1).

(** [Block.mine] of blockchain.py.  The loop tests [self.hash], as it is,
    before it touches the nonce; one unit of fuel is one test. *)
Fixpoint mine (fuel : nat) (self : Block) (difficulty : Z) : outcome Block :=
  match fuel with
  | O => Running
  | S k =>
      if String.prefix (zeros difficulty) (hash self) then Returns self
      else mine k (next_nonce self) difficulty
  end.

(** The methods [class Block] defines: [mine] exists in blockchain.py only,
    [to_dict] in blockchain_render.py only. *)
Inductive method : Type := M_init | M_compute_hash | M_mine | M_to_dict.

Definition Block_class : list (string * method) :=
  [("__init__", M_init); ("compute_hash", M_compute_hash); ("mine", M_mine)]%string.

Definition Block_class_render : list (string * method) :=
  [("__init__", M_init); ("compute_hash", M_compute_hash); ("to_dict", M_to_dict)]%string.

Fixpoint lookup_method (cls : list (string * method)) (name : string) : option method :=
  match cls with
  | [] => None
  | (n, m) :: rest => if String.eqb n name then Some m else lookup_method rest name
  end.

(** [block.mine(difficulty)]: the attribute is looked up in the class, then
    called with one argument, which only [mine] accepts. *)
Definition call_mine (cls : list (string * method)) (fuel : nat) (self : Block)
    (difficulty : Z) : outcome Block :=
  match lookup_method cls "mine" with
  | None => Raises (AttributeError "mine")
  | Some M_mine => mine fuel self difficulty
  | Some _ => Raises TypeError
  end.

(** ** class Blockchain *)

(** [balances] is a [defaultdict(float)]: reading a missing key stores 0.0
    under it, and [d[k] += x] reads, adds and stores.  [credit] and [debit]
    store the exact sum and difference; [credit64] and [debit64] below
    store them rounded. *)
Definition balance (d : gmap string Qc) (k : string) : Qc := default 0 (d !! k).

Definition touch (d : gmap string Qc) (k : string) : gmap string Qc :=
  <[k := balance d k]> d.

Definition credit (d : gmap string Qc) (k : string) (x : Qc) : gmap string Qc :=
  <[k := balance d k + x]> d.

Definition debit (d : gmap string Qc) (k : string) (x : Qc) : gmap string Qc :=
  <[k := balance d k - x]> d.

Record State : Type := mkState {
  chain : list Block;
  pending_tx : list Tx;
  balances : gmap string Qc;
  total_minted : Qc
}.

(** [create_genesis], reached from [__init__] through [load_state] when no
    snapshot exists. *)
Definition create_genesis (now : Qc) : State :=
  mkState [Block_init now 0 (zeros 64) [] None 0] [] ∅ 0.

(** [add_transaction]; both files agree up to the broadcast and the value
    returned.  The state comes back in either case: the object is mutated in
    place, and the balance lookup has stored the default by then. *)
Definition add_transaction (s : State) (sender recipient : string)
    (amount : pynum) : outcome Tx * State :=
  let bal := touch (balances s) sender in
  if decide (balance (balances s) sender < num_val amount) then
    (Raises (ValueError "Insufficient balance"),
     mkState (chain s) (pending_tx s) bal (total_minted s))
  else
    let tx := mkTx sender recipient amount in
    (Returns tx, mkState (chain s) (pending_tx s ++ [tx]) bal (total_minted s)).

(** The loop [for tx in txs: balances[sender] -= amount; balances[recipient] += amount]. *)
Definition apply_tx (d : gmap string Qc) (tx : Tx) : gmap string Qc :=
  credit (debit d (sender tx) (num_val (amount tx))) (recipient tx) (num_val (amount tx)).

Definition apply_txs (d : gmap string Qc) (txs : list Tx) : gmap string Qc :=
  fold_left apply_tx txs d.

Definition reward (total : Qc) : Qc := py_min BLOCK_REWARD (MAX_SUPPLY - total).

(** [mine_pending] of blockchain.py. *)
Definition mine_pending (fuel : nat) (now : Qc) (s : State)
    (miner_address : string) : outcome string * State :=
  match last (chain s) with
  | None => (Raises IndexError, s)
  | Some head =>
      let block := Block_init now (Z.of_nat (length (chain s))) (hash head)
                     (pending_tx s) None 0 in
      match call_mine Block_class fuel block DIFFICULTY with
      | Returns block =>
          let r := reward (total_minted s) in
          let bal := credit (balances s) miner_address r in
          (Returns (hash block),
           mkState (chain s ++ [block]) []
                   (apply_txs bal (pending_tx s)) (total_minted s + r))
      | Raises e => (Raises e, s)
      | Running => (Running, s)
      end
  end.

(** [is_valid_block] of blockchain.py: [chain[-1]] is evaluated only when the
    hashes agree. *)
Definition is_valid_block (now : Qc) (s : State) (blk : Block) : outcome bool :=
  let block := Block_init now (index blk) (prev_hash blk) (transactions blk)
                 (Some (timestamp blk)) (nonce blk) in
  if String.eqb (hash block) (hash blk) then
    match last (chain s) with
    | None => Raises IndexError
    | Some head => Returns (String.eqb (prev_hash block) (hash head))
    end
  else Returns false.

(** Equality of transaction dictionaries, as [d not in self.pending_tx] tests it. *)
Definition tx_eqb (a b : Tx) : bool :=
  String.eqb (sender a) (sender b) && String.eqb (recipient a) (recipient b)
  && bool_decide (num_val (amount a) = num_val (amount b)).

(** The socket handler, [NEW_TX] branch. *)
Definition handler_new_tx (s : State) (d : Tx) : State :=
  if existsb (tx_eqb d) (pending_tx s) then s
  else snd (add_transaction s (sender d) (recipient d) (amount d)).

(** The socket handler, [NEW_BLOCK] branch.  The clock is read once while the
    block is checked and once when it is rebuilt; the rebuilt block then takes
    the declared hash. *)
Definition handler_new_block (now now' : Qc) (s : State) (d : Block) : State :=
  if (index d =? Z.of_nat (length (chain s)))%Z then
    match is_valid_block now s d with
    | Returns true =>
        let blk := set_hash (Block_init now' (index d) (prev_hash d) (transactions d)
                               (Some (timestamp d)) (nonce d)) (hash d) in
        mkState (chain s ++ [blk]) []
                (apply_txs (balances s) (transactions d))
                (total_minted s + reward (total_minted s))
    | _ => s
    end
  else s.

(** ** blockchain_render.py, where it differs *)

(** [mine_pending] of blockchain_render.py: the same text, run against the
    [Block] class of that file; it returns the block. *)
Definition mine_pending_render (fuel : nat) (now : Qc) (s : State)
    (miner_address : string) : outcome Block * State :=
  match last (chain s) with
  | None => (Raises IndexError, s)
  | Some head =>
      let block := Block_init now (Z.of_nat (length (chain s))) (hash head)
                     (pending_tx s) None 0 in
      match call_mine Block_class_render fuel block DIFFICULTY with
      | Returns block =>
          let r := reward (total_minted s) in
          let bal := credit (balances s) miner_address r in
          (Returns block,
           mkState (chain s ++ [block]) []
                   (apply_txs bal (pending_tx s)) (total_minted s + r))
      | Raises e => (Raises e, s)
      | Running => (Running, s)
      end
  end.

(** [is_valid_block] of blockchain_render.py: index, then link, then hash. *)
Definition is_valid_block_render (now : Qc) (s : State) (blk : Block) : outcome bool :=
  if negb (index blk =? Z.of_nat (length (chain s)))%Z then Returns false
  else
    match last (chain s) with
    | None => Raises IndexError
    | Some prev =>
        if negb (String.eqb (prev_hash blk) (hash prev)) then Returns false
        else
          let reconstructed :=
            Block_init now (index blk) (prev_hash blk) (transactions blk)
              (Some (timestamp blk)) (nonce blk) in
          Returns (String.eqb (hash reconstructed) (hash blk))
    end.

(** The route [POST /block].  The appended block is built afresh, so its hash
    is the recomputed one. *)
Definition new_block (now now' : Qc) (s : State) (blk : Block) : State :=
  match is_valid_block_render now s blk with
  | Returns true =>
      mkState (chain s ++ [Block_init now' (index blk) (prev_hash blk)
                             (transactions blk) (Some (timestamp blk)) (nonce blk)])
              []
              (apply_txs (balances s) (transactions blk))
              (total_minted s + reward (total_minted s))
  | _ => s
  end.

(** ** Runs of a node *)

Inductive binding : Type := Socket | Render.

(** One operation on the shared state: a transaction submitted locally or
    over HTTP, a [NEW_TX] message, a mining command, an inbound block. *)
Inductive step : binding -> State -> State -> Prop :=
  | step_add_transaction b s sender recipient amount :
      step b s (snd (add_transaction s sender recipient amount))
  | step_new_tx s d :
      step Socket s (handler_new_tx s d)
  | step_mine_pending fuel now s miner :
      step Socket s (snd (mine_pending fuel now s miner))
  | step_new_block now now' s d :
      step Socket s (handler_new_block now now' s d)
  | step_mine_pending_render fuel now s miner :
      step Render s (snd (mine_pending_render fuel now s miner))
  | step_new_block_render now now' s blk :
      step Render s (new_block now now' s blk).

(** The states a node started without a snapshot can be in. *)
Inductive reachable (b : binding) : State -> Prop :=
  | reach_genesis now : reachable b (create_genesis now)
  | reach_step s s' : reachable b s -> step b s s' -> reachable b s'.

(** ** Vocabulary of the properties *)

(** Number of leading ['0'] characters. *)
Fixpoint leading_zeros (s : string) : nat :=
  match s with
  | String c r => if Ascii.eqb c "0" then S (leading_zeros r) else O
  | EmptyString => O
  end.

(** The ledger as a total mapping: two dictionaries are the same ledger when
    every address has the same balance in both. *)
Definition same_ledger (d d' : gmap string Qc) : Prop :=
  forall a, balance d a = balance d' a.

Definition sum_balances (d : gmap string Qc) : Qc :=
  map_fold (fun _ v acc => v + acc) 0 d.

(** Genesis at the front; every later block carries its position and the
    hash of the block before it. *)
Definition genesis_shaped (b : Block) : Prop :=
  index b = 0%Z /\ prev_hash b = zeros 64 /\ transactions b = [].

Definition linked (c : list Block) : Prop :=
  forall (i : nat) (p b : Block),
    c !! i = Some p -> c !! S i = Some b ->
    index b = Z.of_nat (S i) /\ prev_hash b = hash p.

(** The hash a validator recomputes from the declared fields of a candidate. *)
Definition recomputed_hash (now : Qc) (blk : Block) : string :=
  hash (Block_init now (index blk) (prev_hash blk) (transactions blk)
          (Some (timestamp blk)) (nonce blk)).

(** The three tests an inbound block goes through, in either binding. *)
Definition passes_checks (now : Qc) (s : State) (blk : Block) : Prop :=
  index blk = Z.of_nat (length (chain s))
  /\ (exists head, last (chain s) = Some head /\ prev_hash blk = hash head)
  /\ recomputed_hash now blk = hash blk.

(** The guard of the socket handler's [NEW_BLOCK] branch. *)
Definition accepts (now : Qc) (s : State) (d : Block) : bool :=
  (index d =? Z.of_nat (length (chain s)))%Z
  && match is_valid_block now s d with Returns true => true | _ => false end.

(** The guard of the route [POST /block]. *)
Definition accepts_render (now : Qc) (s : State) (blk : Block) : bool :=
  match is_valid_block_render now s blk with Returns true => true | _ => false end.

(** An operation leaves the chain alone or appends one block that carries
    the next index and the hash of the head. *)
Definition extends_by_one (c c' : list Block) : Prop :=
  exists blk head, c' = c ++ [blk] /\ last c = Some head
    /\ index blk = Z.of_nat (length c) /\ prev_hash blk = hash head.

Definition chain_ok (c : list Block) : Prop :=
  (exists g, c !! 0%nat = Some g /\ genesis_shaped g) /\ linked c.

(** The five fields [compute_hash] reads. *)
Definition fields (b : Block) : Z * string * pynum * list Tx * Z :=
  (index b, prev_hash b, timestamp b, transactions b, nonce b).

(** Strings of a given length over an alphabet, and the test for them. *)
Fixpoint strings_over (alphabet : list ascii) (n : nat) : list string :=
  match n with
  | O => [EmptyString]
  | S k => c ← alphabet; String c <$> strings_over alphabet k
  end.

Fixpoint over (alphabet : list ascii) (s : string) : Prop :=
  match s with
  | EmptyString => True
  | String c r => c ∈ alphabet /\ over alphabet r
  end.

(** A digest as [hexdigest] prints it: 64 lower-case hexadecimal digits. *)
Definition is_hexdigest (s : string) : Prop :=
  String.length s = 64%nat /\ over SHA256.hex_chars s.

(** Reading the encoding back: whether a character occurs in a string, and
    the character an escape sequence at the head of a string stands for. *)
Fixpoint contains (c : ascii) (s : string) : bool :=
  match s with
  | EmptyString => false
  | String d r => Ascii.eqb d c || contains c r
  end.

Fixpoint index_of (c : ascii) (l : list ascii) : Z :=
  match l with
  | [] => 0%Z
  | d :: r => if Ascii.eqb c d then 0%Z else (1 + index_of c r)%Z
  end.

Definition hex_val (c : ascii) : Z := index_of c SHA256.hex_chars.

Definition unescape_head (s : string) : option (ascii * string) :=
  match s with
  | EmptyString => None
  | String c rest =>
      if Ascii.eqb c "\" then
        match rest with
        | EmptyString => None
        | String k rest =>
            if Ascii.eqb k "u" then
              match rest with
              | String h3 (String h2 (String h1 (String h0 rest))) =>
                  let v := (((hex_val h3 * 16 + hex_val h2) * 16 + hex_val h1) * 16
                            + hex_val h0)%Z in
                  Some (ascii_of_N (Z.to_N v), rest)
              | _ => None
              end
            else if Ascii.eqb k "n" then Some ("010"%char, rest)
            else if Ascii.eqb k "r" then Some ("013"%char, rest)
            else if Ascii.eqb k "t" then Some ("009"%char, rest)
            else if Ascii.eqb k "b" then Some ("008"%char, rest)
            else if Ascii.eqb k "f" then Some ("012"%char, rest)
            else Some (k, rest)
        end
      else Some (c, rest)
  end.

(** ** A concrete run

    A node started at 1700000000.5; a block a peer built on its genesis at
    1700000001.5 with a given nonce; the two instants at which the node mines
    (chosen so that the search ends after a few nonces). *)
Definition t_genesis : Qc := Q2Qc (3400000001 # 2).
Definition t_peer : Qc := Q2Qc (3400000003 # 2).
Definition t_mine1 : Qc := Q2Qc (3400241645 # 2).
Definition t_mine2 : Qc := Q2Qc (3400420335 # 2).

Definition genesis_state : State := create_genesis t_genesis.

Definition head_hash (s : State) : string :=
  match last (chain s) with
  | Some b => hash b
  | None => EmptyString
  end.

Definition peer_block (nonce : Z) : Block :=
  Block_init 0 1 (head_hash genesis_state) [] (Some (PyFloat t_peer)) nonce.

(** A snapshot two coins short of the cap. *)
Definition nearly_capped : State :=
  mkState (chain genesis_state) [] ∅ (MAX_SUPPLY - Qc_of_Z 2).

(** ** Further vocabulary *)

(** The test of the loop of [Block.mine]. *)
Definition meets_target (d : Z) (b : Block) : bool :=
  String.prefix (zeros d) (hash b).

(** What a list of transactions takes from an address and what it brings. *)
Definition outflow (a : string) (txs : list Tx) : Qc :=
  foldr (fun tx acc =>
           (if decide (sender tx = a) then num_val (amount tx) else 0) + acc) 0 txs.

Definition inflow (a : string) (txs : list Tx) : Qc :=
  foldr (fun tx acc =>
           (if decide (recipient tx = a) then num_val (amount tx) else 0) + acc) 0 txs.

(** Every stored block carries the digest of its own five fields. *)
Definition chain_hashed (c : list Block) : Prop :=
  forall b, b ∈ c -> hash b = compute_hash b.

(** Every stored block carries a timestamp that [Block.__init__] keeps. *)
Definition stamped (c : list Block) : Prop :=
  Forall (fun b => truthy (timestamp b) = true) c.

Definition with_timestamp (b : Block) (t : pynum) : Block :=
  mkBlock (index b) (prev_hash b) t (transactions b) (nonce b) (hash b).

(** ** Persistence: chain_state.json *)

(** The data [save_state] hands to [json.dump] and [load_state] gets from
    [json.load]: the chain as the six keys of each block, then mempool,
    ledger, counter and peers, which [load_state] reads with [data.get] and a
    file may lack.  JSON keeps integers, floats, strings, lists and objects
    apart, so what is read is what was written, a tuple coming back as a
    list. *)
Record Snapshot (P : Type) : Type := mkSnapshot {
  snap_chain : list Block;
  snap_pending_tx : option (list Tx);
  snap_balances : option (gmap string Qc);
  snap_total_minted : option Qc;
  snap_peers : option (list P)
}.
Arguments mkSnapshot {P} _ _ _ _ _.
Arguments snap_chain {P} _.
Arguments snap_pending_tx {P} _.
Arguments snap_balances {P} _.
Arguments snap_total_minted {P} _.
Arguments snap_peers {P} _.

(** [save_state]: [P] is the type of a peer, a pair (host, port) in
    blockchain.py and a URL in blockchain_render.py. *)
Definition save_state {P : Type} `{Countable P} (s : State) (peers : gset P)
    : Snapshot P :=
  mkSnapshot (chain s) (Some (pending_tx s)) (Some (balances s))
             (Some (total_minted s)) (Some (elements peers)).

(** One turn of the loop of [load_state]: the block is built again from five
    of its keys, then takes the stored hash. *)
Definition load_block (now : Qc) (b : Block) : Block :=
  set_hash (Block_init now (index b) (prev_hash b) (transactions b)
              (Some (timestamp b)) (nonce b)) (hash b).

(** [Blockchain.__init__], which is [load_state] on the empty object: without
    a file, [create_genesis]; with one, the snapshot.  [clock i] is the time
    at which the [i]-th block is rebuilt. *)
Definition load_state {P : Type} `{Countable P} (clock : nat -> Qc)
    (file : option (Snapshot P)) : State * gset P :=
  match file with
  | None => (create_genesis (clock 0%nat), ∅)
  | Some data =>
      (mkState (imap (fun i b => load_block (clock i) b) (snap_chain data))
               (default [] (snap_pending_tx data))
               (default ∅ (snap_balances data))
               (default 0 (snap_total_minted data)),
       list_to_set (default [] (snap_peers data)))
  end.

(** ** Peers *)

(** The loop of [load_bootstrap] and of [fetch_tracker]:
    [for n in nodes: self.peers.add(...)].  An entry that lacks a key raises
    inside the loop ([None] here); the [except] around the loop ends the call
    and the peers added so far stay. *)
Fixpoint add_peers {P : Type} `{Countable P} (peers : gset P)
    (nodes : list (option P)) : gset P :=
  match nodes with
  | [] => peers
  | Some p :: rest => add_peers ({[p]} ∪ peers) rest
  | None :: _ => peers
  end.

(** [load_bootstrap]: the response is [None] when the request or the decoding
    of its body fails. *)
Definition load_bootstrap {P : Type} `{Countable P} (peers : gset P)
    (response : option (list (option P))) : gset P :=
  match response with
  | None => peers
  | Some nodes => add_peers peers nodes
  end.

(** [fetch_tracker]: the same text, on the answer of [url + '/peers']. *)
Definition fetch_tracker {P : Type} `{Countable P} (peers : gset P)
    (response : option (list (option P))) : gset P :=
  match response with
  | None => peers
  | Some nodes => add_peers peers nodes
  end.

(** [register_peer] of blockchain_render.py. *)
Definition register_peer (peers : gset string) (host : string) : gset string :=
  {[host]} ∪ peers.

(** ** Further concrete data *)

(** The node of the run above after its first mine, by A at [t_mine1]; the
    instant of a later mine; a block that declares timestamp 0 with the
    digest for [t_peer]; a chain without a block. *)
Definition funded_state : State :=
  snd (mine_pending 3 t_mine1 genesis_state "A").

Definition t_mine3 : Qc := Q2Qc (3400531381 # 2).

Definition unstamped_block : Block := with_timestamp (peer_block 0) (PyInt 0).

Definition empty_state : State := mkState [] [] ∅ 0.

(** ** The ledger in binary64

    A Python [float] is an IEEE 754 binary64 number: [x + y] and [x - y] are
    the exact sum and difference rounded to the nearest number with a 53-bit
    significand, a tie going to the even significand.  The definitions above
    ([credit], [debit], [apply_txs], [reward], [mine_pending]) leave the
    rounding out; the ones below put it in.  A float is held as the rational
    it stands for, so comparisons are those of the rationals, as in Python.
    Balances and the counter are floats: they start as 0.0, and a float plus
    or minus an [int] is a float.  Only finite floats are covered: a result
    of magnitude 2^1024 or more, which Python turns into [inf], is left as
    the rational it rounds to. *)

(** The integer nearest to [n / d] for [d > 0], a tie going to the even one. *)
Definition round_half_even (n d : Z) : Z :=
  let q := (n / d)%Z in
  match (2 * (n mod d) ?= d)%Z with
  | Lt => q
  | Gt => (q + 1)%Z
  | Eq => if Z.even q then q else (q + 1)%Z
  end.

(** [n / d] divided by [b ^ k], as a fraction of integers. *)
Definition scaled (b : Z) (n d k : Z) : Z * Z :=
  if (0 <=? k)%Z then (n, d * b ^ k)%Z else (n * b ^ (- k), d)%Z.

(** [b ^ k] as a rational, for [k] of either sign. *)
Definition radix_power (b : Z) (k : Z) : Qc :=
  if (0 <=? k)%Z then Qc_of_Z (b ^ k) else / Qc_of_Z (b ^ (- k)).

(** The [e] with [2 ^ e <= n / d < 2 ^ (e + 1)], for positive [n] and [d]. *)
Definition log2_ratio (n d : Z) : Z :=
  let k := (Z.log2 n - Z.log2 d)%Z in
  let '(n', d') := scaled 2 n d k in
  if (d' <=? n')%Z then k else (k - 1)%Z.

(** The exponent of the last of the 53 bits of a float next to [n / d];
    below 2^-1022 the floats are 2^-1074 apart. *)
Definition ulp_exponent (n d : Z) : Z :=
  Z.max (log2_ratio (Z.abs n) d - 52) (-1074).

(** The float nearest to a rational. *)
Definition binary64 (q : Qc) : Qc :=
  let n := Qnum q in
  let d := Zpos (Qden q) in
  if (n =? 0)%Z then 0
  else
    let e := ulp_exponent n d in
    let '(n', d') := scaled 2 n d e in
    Qc_of_Z (round_half_even n' d') * radix_power 2 e.

(** The rationals that are finite floats: rounding leaves them as they are,
    and they lie below 2^1024 in magnitude. *)
Definition representable (x : Qc) : Prop :=
  binary64 x = x /\ - radix_power 2 1024 < x /\ x < radix_power 2 1024.

(** *** The floats of the processor

    Rocq's primitive floats are binary64 numbers on which the processor
    computes.  [float_value] reads one as a rational and [to_hardware] makes
    one from a rational that is a float of at most 63 bits; they serve to
    compare [binary64] with the hardware on the operations of the runs
    below. *)
Definition float_value (f : PrimFloat.float) : Qc :=
  match FloatOps.Prim2SF f with
  | SpecFloat.S754_finite s m e =>
      (if s then - Qc_of_Z (Zpos m) else Qc_of_Z (Zpos m)) * radix_power 2 e
  | _ => 0
  end.

Definition to_hardware (q : Qc) : PrimFloat.float :=
  let e := (- Z.log2 (Zpos (Qden q)))%Z in
  FloatOps.SF2Prim
    match Qnum q with
    | Z0 => SpecFloat.S754_zero false
    | Zpos m => SpecFloat.S754_finite false m e
    | Zneg m => SpecFloat.S754_finite true m e
    end.

(** *** float.__repr__ *)

Definition ndigits (z : Z) : Z := Z.of_nat (String.length (pretty z)).

(** The [k] with [10 ^ (k - 1) <= n / d < 10 ^ k], for positive [n] and [d]. *)
Definition decimal_point (n d : Z) : Z :=
  if (d <=? n)%Z then ndigits (n / d) else (1 - ndigits ((d - 1) / n))%Z.

(** Whether the decimal [m * 10 ^ k] reads back as the float [q]. *)
Definition reads_back (q : Qc) (m k : Z) : bool :=
  bool_decide (binary64 (Qc_of_Z m * radix_power 10 k) = q).

(** The decimal of [p] digits that reads back as [n / d], if there is one:
    of the two decimals around the value, the nearer one that does. *)
Definition digits_at (q : Qc) (n d k p : Z) : option Z :=
  let '(n', d') := scaled 10 n d (k - p) in
  let lo := (n' / d')%Z in
  let hi := (lo + 1)%Z in
  let near := round_half_even n' d' in
  let far := if (near =? lo)%Z then hi else lo in
  if reads_back q near (k - p) then Some near
  else if reads_back q far (k - p) then Some far
  else None.

(** The fewest digits that read back, 17 at most. *)
Fixpoint shortest_digits (fuel : nat) (q : Qc) (n d k p : Z) : Z * Z :=
  match fuel with
  | O => let '(n', d') := scaled 10 n d (k - p) in (round_half_even n' d', p)
  | S f =>
      match digits_at q n d k p with
      | Some m => (m, p)
      | None => shortest_digits f q n d k (p + 1)
      end
  end.

Fixpoint strip_zeros (l : list ascii) : list ascii :=
  match l with
  | [] => []
  | c :: r =>
      match strip_zeros r with
      | [] => if Ascii.eqb c "0" then [] else [c]
      | r' => c :: r'
      end
  end.

Definition two_digits (z : Z) : string :=
  if (z <? 10)%Z then "0" +:+ pretty z else pretty z.

(** [repr(x)] for a float [x]: the shortest digits that read back as [x],
    with an exponent when the decimal point falls more than 16 places after
    the first digit or more than 3 before it ([1e+16], [1e-05]), and with
    [.0] after a whole number otherwise. *)
Definition python_repr (q : Qc) : string :=
  let n := Z.abs (Qnum q) in
  let d := Zpos (Qden q) in
  if (n =? 0)%Z then "0.0"
  else
    let k := decimal_point n d in
    let '(m, p) := shortest_digits 16 (Q2Qc (n # Qden q)) n d k 1 in
    let all := list_ascii_of_string (pretty m) in
    let k' := (k + (Z.of_nat (length all) - p))%Z in
    let ds := strip_zeros all in
    let len := Z.of_nat (length ds) in
    let body :=
      if ((k' <=? -4) || (16 <? k'))%Z then
        string_of_list_ascii (take 1 ds)
        +:+ (if (len =? 1)%Z then "" else "." +:+ string_of_list_ascii (drop 1 ds))
        +:+ "e" +:+ (if (k' - 1 <? 0)%Z then "-" else "+")
        +:+ two_digits (Z.abs (k' - 1))
      else if (k' <=? 0)%Z then
        "0." +:+ string_of_list_ascii (replicate (Z.to_nat (- k')) "0"%char ++ ds)
      else if (len <=? k')%Z then
        string_of_list_ascii (ds ++ replicate (Z.to_nat (k' - len)) "0"%char) +:+ ".0"
      else
        string_of_list_ascii (take (Z.to_nat k') ds) +:+ "."
        +:+ string_of_list_ascii (drop (Z.to_nat k') ds) in
    (if (Qnum q <? 0)%Z then "-" else "") +:+ body.

(** *** Balances *)

(** The float operand of [balance - amount] and [balance + amount]: an
    [int] amount is converted first. *)
Definition to_float (n : pynum) : Qc :=
  match n with
  | PyInt z => binary64 (Qc_of_Z z)
  | PyFloat q => q
  end.

(** [balances[k] += n] and [balances[k] -= n]. *)
Definition credit64 (d : gmap string Qc) (k : string) (n : pynum) : gmap string Qc :=
  <[k := binary64 (balance d k + to_float n)]> d.

Definition debit64 (d : gmap string Qc) (k : string) (n : pynum) : gmap string Qc :=
  <[k := binary64 (balance d k - to_float n)]> d.

(** The loop [for tx in txs: balances[sender] -= amount; balances[recipient] += amount]. *)
Definition apply_tx64 (d : gmap string Qc) (tx : Tx) : gmap string Qc :=
  credit64 (debit64 d (sender tx) (amount tx)) (recipient tx) (amount tx).

Definition apply_txs64 (d : gmap string Qc) (txs : list Tx) : gmap string Qc :=
  fold_left apply_tx64 txs d.

(** [min(BLOCK_REWARD, MAX_SUPPLY - self.total_minted)]: the difference of
    the int 21000000 and a float. *)
Definition reward64 (total : Qc) : Qc :=
  py_min BLOCK_REWARD (binary64 (MAX_SUPPLY - total)).

(** [mine_pending] of blockchain.py. *)
Definition mine_pending64 (fuel : nat) (now : Qc) (s : State)
    (miner_address : string) : outcome string * State :=
  match last (chain s) with
  | None => (Raises IndexError, s)
  | Some head =>
      let block := Block_init now (Z.of_nat (length (chain s))) (hash head)
                     (pending_tx s) None 0 in
      match call_mine Block_class fuel block DIFFICULTY with
      | Returns block =>
          let r := reward64 (total_minted s) in
          let bal := credit64 (balances s) miner_address (PyFloat r) in
          (Returns (hash block),
           mkState (chain s ++ [block]) []
                   (apply_txs64 bal (pending_tx s))
                   (binary64 (total_minted s + r)))
      | Raises e => (Raises e, s)
      | Running => (Running, s)
      end
  end.

(** *** Runs without rounding *)

(** No operation of the loop over [txs], started on [d], is rounded: every
    result is the exact one, a finite float. *)
Definition exact_tx (d : gmap string Qc) (tx : Tx) : Prop :=
  to_float (amount tx) = num_val (amount tx)
  /\ representable (balance d (sender tx) - num_val (amount tx))
  /\ representable
       (balance (debit d (sender tx) (num_val (amount tx))) (recipient tx)
        + num_val (amount tx)).

Fixpoint exact_settlement (d : gmap string Qc) (txs : list Tx) : Prop :=
  match txs with
  | [] => True
  | tx :: rest => exact_tx d tx /\ exact_settlement (apply_tx d tx) rest
  end.

(** No operation of [mine_pending], called in state [s], is rounded. *)
Definition exact_mine (s : State) (miner_address : string) : Prop :=
  representable (MAX_SUPPLY - total_minted s)
  /\ representable (balance (balances s) miner_address + reward (total_minted s))
  /\ representable (total_minted s + reward (total_minted s))
  /\ exact_settlement (credit (balances s) miner_address (reward (total_minted s)))
       (pending_tx s).

(** *** A run in which sums are rounded

    The amounts 0.1 and 0.2 as floats, and the instant of a mine that
    settles them (chosen, like the others, so that the search ends after a
    few nonces). *)
Definition tenth : Qc := binary64 (Q2Qc (1 # 10)).
Definition fifth : Qc := binary64 (Q2Qc (2 # 10)).
Definition t_mine4 : Qc := Q2Qc (3400547141 # 2).

(** * Properties *)

(** ** Leading zeros and the mining loop *)

Lemma zeros_succ (n : nat) :
  String.concat "" (repeat "0"%string (S n))
  = String "0" (String.concat "" (repeat "0"%string n)).
Proof. destruct n; reflexivity. Qed.

Lemma prefix_cons (a b : ascii) (s1 s2 : string) :
  String.prefix (String a s1) (String b s2)
  = if ascii_dec a b then String.prefix s1 s2 else false.
Proof. reflexivity. Qed.

Lemma prefix_zeros_nat (n : nat) (s : string) :
  String.prefix (String.concat "" (repeat "0"%string n)) s = true <->
  (n <= leading_zeros s)%nat.
Proof.
  revert s; induction n as [|n IH]; intros s.
  - simpl. split; [lia | by destruct s].
  - rewrite zeros_succ. destruct s as [|c s].
    + simpl. split; [discriminate | lia].
    + rewrite prefix_cons. cbn [leading_zeros].
      destruct (ascii_dec "0" c) as [<-|Hc].
      * cbn. destruct (IH s) as [IH1 IH2].
        split; intros H; [apply IH1 in H; lia | apply IH2; lia].
      * destruct (Ascii.eqb_spec c "0") as [->|_]; [congruence|].
        split; [discriminate | lia].
Qed.

Lemma prefix_zeros (d : Z) (s : string) :
  String.prefix (zeros d) s = true <-> (d <= Z.of_nat (leading_zeros s))%Z.
Proof. unfold zeros. rewrite prefix_zeros_nat. lia. Qed.

Lemma mine_returns_inv (fuel : nat) (b b' : Block) (d : Z) :
  mine fuel b d = Returns b' ->
  String.prefix (zeros d) (hash b') = true
  /\ index b' = index b /\ prev_hash b' = prev_hash b
  /\ timestamp b' = timestamp b /\ transactions b' = transactions b
  /\ (nonce b <= nonce b')%Z.
Proof.
  revert b; induction fuel as [|k IH]; intros b; simpl; [discriminate|].
  destruct (String.prefix (zeros d) (hash b)) eqn:Hp.
  - intros [= <-]. repeat split; auto; lia.
  - intros H. apply IH in H. unfold next_nonce in H. simpl in H. intuition lia.
Qed.

Lemma mine_never_raises (fuel : nat) (b : Block) (d : Z) (e : exn) :
  mine fuel b d <> Raises e.
Proof.
  revert b; induction fuel as [|k IH]; intros b; simpl; [discriminate|].
  destruct (String.prefix (zeros d) (hash b)); [discriminate | apply IH].
Qed.

(** More fuel never changes a result already obtained. *)
Lemma mine_fuel_mono (fuel : nat) (b b' : Block) (d : Z) :
  mine fuel b d = Returns b' -> mine (S fuel) b d = Returns b'.
Proof.
  revert b; induction fuel as [|k IH]; intros b; [discriminate|].
  intros H. cbn [mine] in H. change (mine (S (S k)) b d) with
    (if String.prefix (zeros d) (hash b) then Returns b
     else mine (S k) (next_nonce b) d).
  destruct (String.prefix (zeros d) (hash b)); [exact H | apply IH, H].
Qed.

(** The search ends as soon as some later nonce gives a hash that fits. *)
Lemma mine_terminates (k : nat) (b : Block) (d : Z) :
  String.prefix (zeros d) (hash (Nat.iter k next_nonce b)) = true ->
  exists fuel b', mine fuel b d = Returns b'.
Proof.
  revert b; induction k as [|k IH]; intros b Hk.
  - exists 1%nat, b. cbn [mine]. cbn in Hk. by rewrite Hk.
  - destruct (String.prefix (zeros d) (hash b)) eqn:Hb.
    + exists 1%nat, b. cbn [mine]. by rewrite Hb.
    + rewrite Nat.iter_succ_r in Hk. destruct (IH _ Hk) as (fuel & b' & Hm).
      exists (S fuel), b'. cbn [mine]. by rewrite Hb.
Qed.

(** ** Validation *)

Lemma is_valid_block_true (now : Qc) (s : State) (d : Block) :
  is_valid_block now s d = Returns true <->
  recomputed_hash now d = hash d
  /\ exists head, last (chain s) = Some head /\ prev_hash d = hash head.
Proof.
  unfold is_valid_block, recomputed_hash.
  set (block := Block_init _ _ _ _ _ _).
  change (prev_hash block) with (prev_hash d).
  destruct (String.eqb_spec (hash block) (hash d)) as [He|He].
  - destruct (last (chain s)) as [head|].
    + destruct (String.eqb_spec (prev_hash d) (hash head)) as [Hp|Hp].
      * split; [eauto|done].
      * split; [discriminate|]. intros (_ & h & [= <-] & ?). done.
    + split; [discriminate|]. intros (_ & h & ? & _). done.
  - split; [discriminate|]. intros [? _]. done.
Qed.

Lemma accepts_spec (now : Qc) (s : State) (d : Block) :
  accepts now s d = true <-> passes_checks now s d.
Proof.
  unfold accepts, passes_checks. rewrite andb_true_iff, Z.eqb_eq.
  assert (match is_valid_block now s d with Returns true => true | _ => false end = true
          <-> is_valid_block now s d = Returns true) as ->.
  { destruct (is_valid_block now s d) as [[]| |]; split; congruence. }
  rewrite is_valid_block_true. tauto.
Qed.

Lemma is_valid_block_render_true (now : Qc) (s : State) (blk : Block) :
  is_valid_block_render now s blk = Returns true <-> passes_checks now s blk.
Proof.
  unfold is_valid_block_render, passes_checks, recomputed_hash.
  set (h := hash (Block_init _ _ _ _ _ _)).
  destruct (Z.eqb_spec (index blk) (Z.of_nat (length (chain s)))) as [Hi|Hi];
    cbn [negb].
  - destruct (last (chain s)) as [prev|].
    + destruct (String.eqb_spec (prev_hash blk) (hash prev)) as [Hp|Hp]; cbn [negb].
      * destruct (String.eqb_spec h (hash blk)) as [Hh|Hh].
        -- split; [eauto 6|done].
        -- split; [discriminate|]. intros (_ & _ & ?). done.
      * split; [discriminate|]. intros (_ & (p & [= <-] & ?) & _). done.
    + split; [discriminate|]. intros (_ & (p & ? & _) & _). done.
  - split; [discriminate|]. intros [? _]. done.
Qed.

Lemma accepts_render_spec (now : Qc) (s : State) (blk : Block) :
  accepts_render now s blk = true <-> passes_checks now s blk.
Proof.
  rewrite <- is_valid_block_render_true. unfold accepts_render.
  destruct (is_valid_block_render now s blk) as [[]| |]; split; congruence.
Qed.

(** What each handler does, by its guard. *)
Lemma handler_new_block_eq (now now' : Qc) (s : State) (d : Block) :
  handler_new_block now now' s d =
  if accepts now s d then
    mkState (chain s ++ [set_hash (Block_init now' (index d) (prev_hash d)
                                     (transactions d) (Some (timestamp d)) (nonce d))
                           (hash d)])
            [] (apply_txs (balances s) (transactions d))
            (total_minted s + reward (total_minted s))
  else s.
Proof.
  unfold handler_new_block, accepts.
  destruct (index d =? Z.of_nat (length (chain s)))%Z; [|done].
  by destruct (is_valid_block now s d) as [[]| |].
Qed.

Lemma new_block_eq (now now' : Qc) (s : State) (blk : Block) :
  new_block now now' s blk =
  if accepts_render now s blk then
    mkState (chain s ++ [Block_init now' (index blk) (prev_hash blk)
                           (transactions blk) (Some (timestamp blk)) (nonce blk)])
            [] (apply_txs (balances s) (transactions blk))
            (total_minted s + reward (total_minted s))
  else s.
Proof.
  unfold new_block, accepts_render.
  by destruct (is_valid_block_render now s blk) as [[]| |].
Qed.

(** ** Mining a block *)

Lemma call_mine_socket (fuel : nat) (b : Block) (d : Z) :
  call_mine Block_class fuel b d = mine fuel b d.
Proof. reflexivity. Qed.

Lemma call_mine_render (fuel : nat) (b : Block) (d : Z) :
  call_mine Block_class_render fuel b d = Raises (AttributeError "mine").
Proof. reflexivity. Qed.

Lemma mine_pending_eq (fuel : nat) (now : Qc) (s : State) (miner : string) :
  mine_pending fuel now s miner =
  match last (chain s) with
  | None => (Raises IndexError, s)
  | Some head =>
      match mine fuel (Block_init now (Z.of_nat (length (chain s))) (hash head)
                         (pending_tx s) None 0) DIFFICULTY with
      | Returns block =>
          (Returns (hash block),
           mkState (chain s ++ [block]) []
             (apply_txs (credit (balances s) miner (reward (total_minted s)))
                (pending_tx s))
             (total_minted s + reward (total_minted s)))
      | Raises e => (Raises e, s)
      | Running => (Running, s)
      end
  end.
Proof. reflexivity. Qed.

Lemma mine_pending_render_eq (fuel : nat) (now : Qc) (s : State) (miner : string) :
  mine_pending_render fuel now s miner =
  match last (chain s) with
  | None => (Raises IndexError, s)
  | Some _ => (Raises (AttributeError "mine"), s)
  end.
Proof. unfold mine_pending_render. by destruct (last (chain s)). Qed.

(** ** The ledger *)

Lemma balance_insert (d : gmap string Qc) (k a : string) (v : Qc) :
  balance (<[k:=v]> d) a = if decide (k = a) then v else balance d a.
Proof. unfold balance. rewrite lookup_insert. by case_decide. Qed.

Lemma balance_touch (d : gmap string Qc) (k a : string) :
  balance (touch d k) a = balance d a.
Proof. unfold touch. rewrite balance_insert. case_decide; by subst. Qed.

Lemma balance_credit (d : gmap string Qc) (k a : string) (x : Qc) :
  balance (credit d k x) a
  = if decide (k = a) then balance d k + x else balance d a.
Proof. apply balance_insert. Qed.

Lemma balance_debit (d : gmap string Qc) (k a : string) (x : Qc) :
  balance (debit d k x) a
  = if decide (k = a) then balance d k - x else balance d a.
Proof. apply balance_insert. Qed.

Lemma sum_balances_insert (d : gmap string Qc) (k : string) (v : Qc) :
  sum_balances (<[k:=v]> d) = sum_balances d - balance d k + v.
Proof.
  assert (Hcomm : forall (m : gmap string Qc) (j1 j2 : string) (z1 z2 y : Qc),
             j1 ≠ j2 -> m !! j1 = Some z1 -> m !! j2 = Some z2 ->
             z1 + (z2 + y) = z2 + (z1 + y)).
  { intros. ring. }
  unfold sum_balances, balance. destruct (d !! k) as [x|] eqn:Hk; simpl.
  - rewrite <- (insert_delete_eq d k v).
    rewrite map_fold_insert_L; [| apply Hcomm | apply lookup_delete_eq].
    rewrite (map_fold_delete_L _ _ k x d); [| apply Hcomm | done].
    ring.
  - rewrite map_fold_insert_L; [| apply Hcomm | done]. ring.
Qed.

Lemma sum_balances_touch (d : gmap string Qc) (k : string) :
  sum_balances (touch d k) = sum_balances d.
Proof. unfold touch. rewrite sum_balances_insert. ring. Qed.

Lemma sum_balances_credit (d : gmap string Qc) (k : string) (x : Qc) :
  sum_balances (credit d k x) = sum_balances d + x.
Proof. unfold credit. rewrite sum_balances_insert. ring. Qed.

Lemma sum_balances_debit (d : gmap string Qc) (k : string) (x : Qc) :
  sum_balances (debit d k x) = sum_balances d - x.
Proof. unfold debit. rewrite sum_balances_insert. ring. Qed.

Lemma sum_balances_apply_txs (txs : list Tx) (d : gmap string Qc) :
  sum_balances (apply_txs d txs) = sum_balances d.
Proof.
  revert d; induction txs as [|tx txs IH]; intros d; [done|].
  cbn [apply_txs fold_left]. change (fold_left apply_tx txs ?x) with (apply_txs x txs).
  rewrite IH. unfold apply_tx. rewrite sum_balances_credit, sum_balances_debit. ring.
Qed.

(** ** The reward *)

Lemma BLOCK_REWARD_nonneg : 0 <= BLOCK_REWARD.
Proof. by vm_compute. Qed.

Lemma reward_bounds (t : Qc) :
  t <= MAX_SUPPLY -> 0 <= reward t /\ t + reward t <= MAX_SUPPLY.
Proof.
  intros Ht. unfold reward, py_min. case_decide as Hlt.
  - split.
    + by apply Qcle_minus_iff in Ht.
    + replace (t + (MAX_SUPPLY - t)) with MAX_SUPPLY by ring. apply Qcle_refl.
  - split; [apply BLOCK_REWARD_nonneg|].
    apply Qcnot_lt_le in Hlt.
    replace MAX_SUPPLY with (t + (MAX_SUPPLY - t)) by ring.
    by apply Qcplus_le_mono_l.
Qed.

Lemma Qcle_plus_nonneg (t r : Qc) : 0 <= r -> t <= t + r.
Proof.
  intros Hr. rewrite <- (Qcplus_0_r t) at 1. by apply Qcplus_le_mono_l.
Qed.

(** ** The chain along a run *)

Lemma linked_snoc (c : list Block) (p b : Block) :
  linked c -> last c = Some p ->
  index b = Z.of_nat (length c) -> prev_hash b = hash p ->
  linked (c ++ [b]).
Proof.
  intros Hc Hlast Hi Hp i p' b' Hp' Hb'.
  destruct (decide (S i < length c)%nat) as [Hlt|Hge].
  - rewrite lookup_app_l in Hp' by lia. rewrite lookup_app_l in Hb' by lia.
    by apply (Hc i).
  - assert (S i = length c) as Hlen.
    { apply lookup_lt_Some in Hb'. rewrite length_app in Hb'. simpl in Hb'. lia. }
    rewrite lookup_app_l in Hp' by lia.
    rewrite lookup_app_r in Hb' by lia.
    replace (S i - length c)%nat with 0%nat in Hb' by lia.
    injection Hb' as <-.
    rewrite last_lookup in Hlast. rewrite <- Hlen in Hlast. simpl in Hlast.
    rewrite Hlast in Hp'. injection Hp' as <-.
    split; [by rewrite Hlen | done].
Qed.

Lemma add_transaction_chain (s : State) (a b : string) (n : pynum) :
  chain (snd (add_transaction s a b n)) = chain s
  /\ total_minted (snd (add_transaction s a b n)) = total_minted s.
Proof. unfold add_transaction. by case_decide. Qed.

Lemma handler_new_tx_chain (s : State) (d : Tx) :
  chain (handler_new_tx s d) = chain s
  /\ total_minted (handler_new_tx s d) = total_minted s.
Proof.
  unfold handler_new_tx. destruct (existsb _ _); [done|].
  apply add_transaction_chain.
Qed.

Lemma step_chain (b : binding) (s s' : State) :
  step b s s' -> chain s' = chain s \/ extends_by_one (chain s) (chain s').
Proof.
  destruct 1 as [b s a r n | s d | fuel now s miner | now now' s d
                | fuel now s miner | now now' s blk].
  - left. apply add_transaction_chain.
  - left. apply handler_new_tx_chain.
  - rewrite mine_pending_eq. destruct (last (chain s)) as [head|] eqn:Hl; [|by left].
    destruct (mine _ _ _) as [blk| |] eqn:Hm; [|by left..].
    right. apply mine_returns_inv in Hm as (_ & Hi & Hp & _).
    exists blk, head. by repeat split.
  - rewrite handler_new_block_eq. destruct (accepts now s d) eqn:Ha; [|by left].
    right. apply accepts_spec in Ha as (Hi & (head & Hl & Hp) & _).
    eexists _, head. by repeat split.
  - left. rewrite mine_pending_render_eq. by destruct (last (chain s)).
  - rewrite new_block_eq. destruct (accepts_render now s blk) eqn:Ha; [|by left].
    right. apply accepts_render_spec in Ha as (Hi & (head & Hl & Hp) & _).
    eexists _, head. by repeat split.
Qed.

Lemma step_total_minted (b : binding) (s s' : State) :
  step b s s' ->
  total_minted s' = total_minted s
  \/ total_minted s' = total_minted s + reward (total_minted s).
Proof.
  destruct 1 as [b s a r n | s d | fuel now s miner | now now' s d
                | fuel now s miner | now now' s blk].
  - left. apply add_transaction_chain.
  - left. apply handler_new_tx_chain.
  - rewrite mine_pending_eq. destruct (last (chain s)) as [head|]; [|by left].
    destruct (mine _ _ _) as [blk| |]; [by right | by left..].
  - rewrite handler_new_block_eq. destruct (accepts now s d); [by right | by left].
  - left. rewrite mine_pending_render_eq. by destruct (last (chain s)).
  - rewrite new_block_eq. destruct (accepts_render now s blk); [by right | by left].
Qed.

Lemma chain_ok_step (b : binding) (s s' : State) :
  step b s s' -> chain_ok (chain s) -> chain_ok (chain s').
Proof.
  intros Hstep [(g & Hg & Hshape) Hlink].
  destruct (step_chain _ _ _ Hstep) as [->|(blk & head & -> & Hl & Hi & Hp)].
  - by split; [exists g|].
  - split.
    + exists g. split; [|done]. by apply lookup_app_l_Some.
    + by eapply linked_snoc.
Qed.

Lemma chain_ok_genesis (now : Qc) : chain_ok (chain (create_genesis now)).
Proof.
  split.
  - eexists. split; [reflexivity|]. by repeat split.
  - intros i p b _ Hb. destruct i; discriminate.
Qed.

Lemma reachable_chain_ok (b : binding) (s : State) :
  reachable b s -> chain_ok (chain s).
Proof.
  induction 1 as [now | s s' _ IH Hstep].
  - apply chain_ok_genesis.
  - by eapply chain_ok_step.
Qed.

Lemma chain_ok_nonempty (c : list Block) : chain_ok c -> c <> [].
Proof. intros [(g & Hg & _) _] ->. discriminate. Qed.

Lemma reachable_total_minted (b : binding) (s : State) :
  reachable b s -> 0 <= total_minted s <= MAX_SUPPLY.
Proof.
  induction 1 as [now | s s' _ [IH0 IH1] Hstep].
  - split; by vm_compute.
  - destruct (step_total_minted _ _ _ Hstep) as [->| ->]; [done|].
    destruct (reward_bounds _ IH1) as [Hr Hle]. split; [|done].
    eapply Qcle_trans; [exact IH0 | by apply Qcle_plus_nonneg].
Qed.

(** ** The shape of a digest *)

Lemma round_length (st : list Z) (kw : Z * Z) :
  length (SHA256.round st kw) = length st.
Proof.
  unfold SHA256.round.
  do 9 (destruct st as [|? st]; [reflexivity|]). reflexivity.
Qed.

Lemma rounds_length (l : list (Z * Z)) (st : list Z) :
  length (fold_left SHA256.round l st) = length st.
Proof.
  revert st; induction l as [|kw l IH]; intros st; [done|].
  simpl. by rewrite IH, round_length.
Qed.

Lemma compress_length (st blk : list Z) :
  length (SHA256.compress st blk) = length st.
Proof.
  unfold SHA256.compress. rewrite length_zip_with_l_eq; [done|].
  by rewrite rounds_length.
Qed.

Lemma blocks_length (fuel : nat) (ws st : list Z) :
  length (SHA256.blocks fuel ws st) = length st.
Proof.
  revert ws st; induction fuel as [|k IH]; intros ws st; [done|].
  simpl. destruct ws; [done|]. by rewrite IH, compress_length.
Qed.

Lemma digest_words_length (msg : list Z) :
  length (SHA256.digest_words msg) = 8%nat.
Proof. unfold SHA256.digest_words. by rewrite blocks_length. Qed.

Lemma hex_digit_in (d : Z) : SHA256.hex_digit d ∈ SHA256.hex_chars.
Proof.
  unfold SHA256.hex_digit. apply list_elem_of_In, nth_In.
  change (length SHA256.hex_chars) with 16%nat.
  pose proof (Z.mod_pos_bound d 16). lia.
Qed.

Lemma hex_be_shape (n : nat) (x : Z) (acc : string) :
  over SHA256.hex_chars acc ->
  String.length (SHA256.hex_be n x acc) = (n + String.length acc)%nat
  /\ over SHA256.hex_chars (SHA256.hex_be n x acc).
Proof.
  revert x acc; induction n as [|n IH]; intros x acc Hacc; [done|].
  cbn [SHA256.hex_be].
  destruct (IH (x / 16)%Z (String (SHA256.hex_digit x) acc)) as [Hl Ho].
  { split; [apply hex_digit_in | done]. }
  split; [|done]. rewrite Hl. simpl. lia.
Qed.

Lemma hex_words_shape (ws : list Z) :
  String.length (SHA256.hex_words ws) = (8 * length ws)%nat
  /\ over SHA256.hex_chars (SHA256.hex_words ws).
Proof.
  induction ws as [|w ws [IHl IHo]]; [done|].
  cbn [SHA256.hex_words fold_right].
  destruct (hex_be_shape 8 w (SHA256.hex_words ws) IHo) as [Hl Ho].
  split; [|done]. unfold SHA256.hex_words in *. rewrite Hl, IHl. simpl. lia.
Qed.

Lemma hexdigest_shape (s : string) : is_hexdigest (SHA256.hexdigest s).
Proof.
  unfold is_hexdigest, SHA256.hexdigest.
  destruct (hex_words_shape (SHA256.digest_words (SHA256.bytes_of_string s)))
    as [Hl Ho].
  split; [|done]. by rewrite Hl, digest_words_length.
Qed.

(** Digests live in a finite set, so no function into them is injective on
    an infinite supply of inputs. *)
Lemma strings_over_complete (alphabet : list ascii) (s : string) :
  over alphabet s -> s ∈ strings_over alphabet (String.length s).
Proof.
  induction s as [|c r IH]; intros Ho; cbn.
  - apply list_elem_of_singleton. done.
  - destruct Ho as [Hc Hr]. apply list_elem_of_bind. exists c. split; [|done].
    apply list_elem_of_fmap. exists r. split; [done | by apply IH].
Qed.

Lemma collision_or_NoDup {A : Type} `{EqDecision A} (f : nat -> A) (l : list nat) :
  NoDup l -> (exists i j, i <> j /\ f i = f j) \/ NoDup (f <$> l).
Proof.
  induction 1 as [|x l Hx Hl IH]; [right; constructor|].
  destruct IH as [IH|IH]; [by left|].
  destruct (decide (f x ∈ f <$> l)) as [Hin|Hin].
  - left. apply list_elem_of_fmap in Hin as (y & Hxy & Hy).
    exists x, y. split; [|done]. intros ->. done.
  - right. by constructor.
Qed.

Lemma pigeonhole_nat {A : Type} `{EqDecision A} (D : list A) (f : nat -> A) :
  (forall n, f n ∈ D) -> exists i j, i <> j /\ f i = f j.
Proof.
  intros Hin.
  destruct (collision_or_NoDup f (seq 0 (S (length D))) (NoDup_seq _ _))
    as [Hc|Hnd]; [done|].
  apply NoDup_submseteq with (k := D) in Hnd.
  - apply submseteq_length in Hnd. rewrite length_fmap, length_seq in Hnd. lia.
  - intros x (n & -> & _)%list_elem_of_fmap. apply Hin.
Qed.

(** Among countably many blocks, two have one digest. *)
Lemma digest_collision (g : nat -> Block) :
  exists n n' : nat, n <> n' /\ compute_hash (g n) = compute_hash (g n').
Proof.
  apply (pigeonhole_nat (strings_over SHA256.hex_chars 64)).
  intros n. destruct (hexdigest_shape (dumps_block (g n))) as [Hl Ho].
  unfold compute_hash. rewrite <- Hl. by apply strings_over_complete.
Qed.

(** ** The ledger in binary64 *)

Lemma balance_credit64 (d : gmap string Qc) (k a : string) (n : pynum) :
  balance (credit64 d k n) a
  = if decide (k = a) then binary64 (balance d k + to_float n) else balance d a.
Proof. apply balance_insert. Qed.

Lemma balance_debit64 (d : gmap string Qc) (k a : string) (n : pynum) :
  balance (debit64 d k n) a
  = if decide (k = a) then binary64 (balance d k - to_float n) else balance d a.
Proof. apply balance_insert. Qed.

Lemma balance_apply_tx64_other (d : gmap string Qc) (tx : Tx) (a : string) :
  sender tx <> a -> recipient tx <> a ->
  balance (apply_tx64 d tx) a = balance d a.
Proof.
  intros Hs Hr. unfold apply_tx64.
  by rewrite balance_credit64, decide_False, balance_debit64, decide_False.
Qed.

Lemma balance_apply_txs64_other (txs : list Tx) (d : gmap string Qc) (a : string) :
  Forall (fun tx => sender tx <> a /\ recipient tx <> a) txs ->
  balance (apply_txs64 d txs) a = balance d a.
Proof.
  intros Hall. revert d. induction Hall as [|tx txs [Hs Hr] _ IH]; intros d; [done|].
  cbn [apply_txs64 fold_left]. change (fold_left apply_tx64 txs ?x) with (apply_txs64 x txs).
  by rewrite IH, balance_apply_tx64_other.
Qed.

(** Where nothing is rounded the two settlements agree. *)
Lemma apply_tx64_exact (d : gmap string Qc) (tx : Tx) :
  exact_tx d tx -> apply_tx64 d tx = apply_tx d tx.
Proof.
  unfold exact_tx, apply_tx64, apply_tx, credit64, debit64, credit, debit.
  intros (Hf & [Hs _] & [Hr _]). by rewrite Hf, Hs, Hr.
Qed.

Lemma apply_txs64_exact (txs : list Tx) (d : gmap string Qc) :
  exact_settlement d txs -> apply_txs64 d txs = apply_txs d txs.
Proof.
  revert d. induction txs as [|tx txs IH]; intros d; [done|].
  intros [Htx Hrest]. cbn [apply_txs64 apply_txs fold_left].
  rewrite (apply_tx64_exact d tx Htx).
  change (fold_left apply_tx64 txs ?x) with (apply_txs64 x txs).
  change (fold_left apply_tx txs ?x) with (apply_txs x txs).
  by apply IH.
Qed.

Lemma reward64_exact (t : Qc) :
  representable (MAX_SUPPLY - t) -> reward64 t = reward t.
Proof. unfold reward64, reward. by intros [-> _]. Qed.

Lemma mine_pending64_exact (fuel : nat) (now : Qc) (s : State) (miner : string) :
  exact_mine s miner ->
  mine_pending64 fuel now s miner = mine_pending fuel now s miner.
Proof.
  intros (Hr & [Hc _] & [Ht _] & Hx). unfold mine_pending64, mine_pending.
  destruct (last (chain s)) as [head|]; [|done].
  destruct (call_mine _ _ _ _) as [blk| |]; [|done..].
  cbn zeta. rewrite (reward64_exact _ Hr).
  assert (Hcr : credit64 (balances s) miner (PyFloat (reward (total_minted s)))
                = credit (balances s) miner (reward (total_minted s))).
  { unfold credit64, credit. cbn [to_float]. by rewrite Hc. }
  by rewrite Hcr, (apply_txs64_exact _ _ Hx), Ht.
Qed.

(** ** Floats that are quarters

    A multiple of 1/4 whose numerator has at most 53 bits is a float:
    rounding leaves it as it is. *)

Lemma round_half_even_multiple (z d : Z) :
  (0 < d)%Z -> round_half_even (z * d) d = z.
Proof.
  intros Hd. unfold round_half_even.
  rewrite Z.mod_mul, Z.div_mul by lia.
  by rewrite (proj2 (Z.compare_lt_iff _ _)) by lia.
Qed.

Lemma quarters_num_den (m : Z) :
  let q := Qc_of_Z m * / Qc_of_Z 4 in
  (Qnum q * 4 = m * Zpos (Qden q))%Z.
Proof.
  intros q.
  assert (H : (this q == m # 4)%Q).
  { unfold q, Qc_of_Z. cbn [this Qcmult Qcinv Q2Qc].
    rewrite !Qred_correct. unfold Qeq, Qmult, Qinv, inject_Z. simpl.
    rewrite Pos2Z.inj_mul. lia. }
  exact H.
Qed.

(** [log2_ratio] is a lower bound: [2 ^ log2_ratio n d <= n / d]. *)
Lemma log2_ratio_lower (n d : Z) :
  (0 < n)%Z -> (0 < d)%Z -> (0 <= log2_ratio n d)%Z ->
  (d * 2 ^ log2_ratio n d <= n)%Z.
Proof.
  intros Hn Hd. unfold log2_ratio, scaled.
  set (k := (Z.log2 n - Z.log2 d)%Z).
  destruct (Z.log2_spec n Hn) as [Hn1 Hn2].
  destruct (Z.log2_spec d Hd) as [Hd1 Hd2].
  destruct (Z.leb_spec 0 k) as [Hk|Hk].
  - destruct (Z.leb_spec (d * 2 ^ k) n) as [Hle|Hlt]; [done|].
    intros Hk1.
    assert (E : (2 ^ Z.log2 n = 2 ^ Z.succ (Z.log2 d) * 2 ^ (k - 1))%Z).
    { rewrite <- Z.pow_add_r by (pose proof (Z.log2_nonneg d); lia).
      f_equal. lia. }
    assert (0 < 2 ^ (k - 1))%Z by (apply Z.pow_pos_nonneg; lia).
    nia.
  - destruct (Z.leb_spec d (n * 2 ^ (- k))); lia.
Qed.

Lemma binary64_quarters (m : Z) :
  (Z.abs m < 2 ^ 53)%Z ->
  binary64 (Qc_of_Z m * / Qc_of_Z 4) = Qc_of_Z m * / Qc_of_Z 4.
Proof.
  intros Hm. pose proof (quarters_num_den m) as Hq. cbv zeta in Hq.
  set (q := Qc_of_Z m * / Qc_of_Z 4) in *.
  unfold binary64. set (n := Qnum q) in *. set (d := Zpos (Qden q)) in *.
  assert (Hd : (0 < d)%Z) by done.
  destruct (Z.eqb_spec n 0) as [Hn|Hn].
  - assert (m = 0)%Z as Hm0 by nia. unfold q. rewrite Hm0.
    apply Qc_is_canon. reflexivity.
  - set (L := log2_ratio (Z.abs n) d).
    assert (HL : (L <= 50)%Z).
    { destruct (Z.le_gt_cases L 50) as [|Hgt]; [done|].
      pose proof (log2_ratio_lower (Z.abs n) d ltac:(lia) Hd ltac:(fold L; lia)) as Hlow.
      fold L in Hlow.
      assert (2 ^ 51 <= 2 ^ L)%Z by (apply Z.pow_le_mono_r; lia).
      assert (Z.abs m * d = Z.abs n * 4)%Z by nia.
      nia. }
    unfold ulp_exponent. fold L. set (e := Z.max (L - 52) (-1074)).
    assert (He : (e <= -2)%Z) by lia.
    unfold scaled. destruct (Z.leb_spec 0 e) as [|_]; [lia|].
    set (P := (2 ^ (- e - 2))%Z).
    assert (HP : (0 < P)%Z) by (apply Z.pow_pos_nonneg; lia).
    assert (E : (2 ^ (- e) = 4 * P)%Z).
    { unfold P. change 4%Z with (2 ^ 2)%Z. rewrite <- Z.pow_add_r by lia.
      f_equal. lia. }
    assert (En : (n * 2 ^ (- e) = (m * P) * d)%Z) by nia.
    rewrite En, round_half_even_multiple by done.
    unfold radix_power. destruct (Z.leb_spec 0 e) as [|_]; [lia|].
    rewrite E, !Z2Qc_inj_mul. unfold q.
    assert (Qc_of_Z P <> 0).
    { rewrite <- Z2Qc_inj_0. intros Hc%Z2Qc_inj. lia. }
    assert (Qc_of_Z 4 <> 0).
    { rewrite <- Z2Qc_inj_0. intros Hc%Z2Qc_inj. lia. }
    field. done.
Qed.

Lemma representable_quarters (m : Z) :
  (Z.abs m < 2 ^ 53)%Z -> representable (Qc_of_Z m * / Qc_of_Z 4).
Proof.
  intros Hm. split; [by apply binary64_quarters|].
  assert (H4 : 0 < Qc_of_Z 4).
  { rewrite <- Z2Qc_inj_0. by apply (proj1 (Z2Qc_inj_lt _ _)). }
  assert (E : Qc_of_Z m * / Qc_of_Z 4 * Qc_of_Z 4 = Qc_of_Z m).
  { field. rewrite <- Z2Qc_inj_0. intros Hc%Z2Qc_inj. lia. }
  assert (Hbig : (2 ^ 53 < 2 ^ 1024 * 4)%Z) by (vm_compute; reflexivity).
  change (radix_power 2 1024) with (Qc_of_Z (2 ^ 1024)).
  split; apply (Qcmult_lt_mono_pos_r _ _ (Qc_of_Z 4) H4); rewrite E.
  - rewrite <- Z2Qc_inj_opp, <- Z2Qc_inj_mul. apply (proj1 (Z2Qc_inj_lt _ _)). lia.
  - rewrite <- Z2Qc_inj_mul. apply (proj1 (Z2Qc_inj_lt _ _)). lia.
Qed.

Lemma BLOCK_REWARD_quarters : BLOCK_REWARD = Qc_of_Z 25 * / Qc_of_Z 4.
Proof. apply Qc_is_canon. reflexivity. Qed.

(** ** The canonical encoding can be read back *)

Lemma append_nil (b : string) : EmptyString +:+ b = b.
Proof. reflexivity. Qed.

Lemma append_cons (x : ascii) (a b : string) :
  String x a +:+ b = String x (a +:+ b).
Proof. reflexivity. Qed.

Lemma append_assoc (a b c : string) : (a +:+ b) +:+ c = a +:+ (b +:+ c).
Proof.
  induction a as [|x a IH]; [done|]. rewrite !append_cons. by f_equal.
Qed.

Lemma contains_append (c : ascii) (a b : string) :
  contains c (a +:+ b) = contains c a || contains c b.
Proof.
  induction a as [|x a IH]; [done|]. rewrite append_cons. cbn [contains].
  rewrite <- orb_assoc. by f_equal.
Qed.

(** A text without [c], then [c]: the first [c] marks where the text ends. *)
Lemma split_at_char (c : ascii) (x x' r r' : string) :
  contains c x = false -> contains c x' = false ->
  x +:+ String c r = x' +:+ String c r' -> x = x' /\ r = r'.
Proof.
  revert x'; induction x as [|a x IH]; intros [|a' x'];
    rewrite ?append_nil, ?append_cons; cbn [contains].
  - intros _ _ [= ->]. done.
  - intros _ [Ha _]%orb_false_elim [= <- _]. by rewrite Ascii.eqb_refl in Ha.
  - intros [Ha _]%orb_false_elim _ [= -> _]. by rewrite Ascii.eqb_refl in Ha.
  - intros [_ Hx]%orb_false_elim [_ Hx']%orb_false_elim [= -> He].
    destruct (IH x' Hx Hx' He) as [-> ->]. done.
Qed.

Lemma pretty_N_go_avoids (c : ascii) (x : N) (s : string) :
  (forall k, pretty_N_char k <> c) ->
  contains c s = false -> contains c (pretty_N_go x s) = false.
Proof.
  intros Hc. revert s. induction (N.lt_wf_0 x) as [x _ IH]; intros s Hs.
  assert (x = 0 \/ 0 < x)%N as [->|Hx] by lia.
  - by rewrite pretty_N_go_0.
  - rewrite pretty_N_go_step by done. apply IH; [by apply N.div_lt|].
    simpl. rewrite Hs, orb_false_r. apply Ascii.eqb_neq, Hc.
Qed.

Lemma pretty_Z_avoids (c : ascii) (z : Z) :
  (forall k, pretty_N_char k <> c) -> c <> "-"%char ->
  contains c (pretty z) = false.
Proof.
  intros Hc Hd.
  assert (Hpos : forall p : positive, contains c (pretty p) = false).
  { intros p. unfold pretty, pretty_positive, pretty, pretty_N.
    case_decide; [done|]. by apply pretty_N_go_avoids. }
  assert (H0 : Ascii.eqb "0" c = false) by (apply Ascii.eqb_neq, (Hc 0%N)).
  destruct z as [|p|p]; unfold pretty, pretty_Z.
  - change (contains c "0" = false). cbn [contains]. by rewrite H0.
  - apply Hpos.
  - change (contains c ("-" +:+ pretty p) = false).
    rewrite contains_append, Hpos. cbn [contains].
    assert (Ascii.eqb "-" c = false) as ->; [|done].
    apply Ascii.eqb_neq. congruence.
Qed.

Lemma digit_not_comma (k : N) : pretty_N_char k <> ","%char.
Proof. unfold pretty_N_char. by repeat case_match. Qed.

Lemma digit_not_slash (k : N) : pretty_N_char k <> "/"%char.
Proof. unfold pretty_N_char. by repeat case_match. Qed.

Lemma int_then_comma (z z' : Z) (r r' : string) :
  pretty z +:+ ", " +:+ r = pretty z' +:+ ", " +:+ r' -> z = z' /\ r = r'.
Proof.
  intros H. apply split_at_char in H as [Hz [= Hr]].
  - split; [by apply (inj pretty) | done].
  - by apply pretty_Z_avoids; [apply digit_not_comma|].
  - by apply pretty_Z_avoids; [apply digit_not_comma|].
Qed.

(** Escapes form a prefix code: the head of an escaped text gives back the
    character it stands for. *)
Lemma unescape_head_escape_char (c : ascii) (rest : string) :
  unescape_head (escape_char c +:+ rest) = Some (c, rest).
Proof. destruct c as [[] [] [] [] [] [] [] []]; reflexivity. Qed.

Lemma escape_then_quote (p p' r r' : string) :
  escape p +:+ dquote +:+ r = escape p' +:+ dquote +:+ r' -> p = p' /\ r = r'.
Proof.
  revert p'; induction p as [|c p IH]; intros [|c' p']; cbn [escape];
    rewrite ?append_nil, ?(append_assoc (escape_char _)).
  - intros H. apply String.app_inj in H. by subst.
  - intros H. assert (Hd := f_equal unescape_head H).
    rewrite unescape_head_escape_char in Hd.
    change (unescape_head (dquote +:+ r)) with (Some ("034"%char, r)) in Hd.
    injection Hd as Hc _. subst c'. discriminate H.
  - intros H. assert (Hd := f_equal unescape_head H).
    rewrite unescape_head_escape_char in Hd.
    change (unescape_head (dquote +:+ r')) with (Some ("034"%char, r')) in Hd.
    injection Hd as Hc _. subst c. discriminate H.
  - intros H. assert (Hd := f_equal unescape_head H).
    rewrite !unescape_head_escape_char in Hd. injection Hd as -> Hd.
    destruct (IH _ Hd) as [-> ->]. done.
Qed.

Lemma json_str_then (p p' r r' : string) :
  json_str p +:+ r = json_str p' +:+ r' -> p = p' /\ r = r'.
Proof.
  unfold json_str. rewrite !append_assoc. intros H.
  apply String.app_inj in H. by apply escape_then_quote.
Qed.

Section Encoding.

(** What Python's [repr] of a float guarantees: distinct floats print
    differently, never like an [int] (there is a point, an exponent, [inf]
    or [nan]), and never with a comma. *)
Hypothesis float_repr_inj : forall q q', float_repr q = float_repr q' -> q = q'.
Hypothesis float_repr_not_int : forall q (z : Z), float_repr q <> pretty z.
Hypothesis float_repr_no_comma : forall q, contains "," (float_repr q) = false.

Lemma json_num_inj (n n' : pynum) : json_num n = json_num n' -> n = n'.
Proof.
  destruct n as [z|q], n' as [z'|q']; cbn [json_num]; intros H.
  - f_equal. by apply (inj pretty).
  - symmetry in H. by destruct (float_repr_not_int _ _ H).
  - by destruct (float_repr_not_int _ _ H).
  - f_equal. by apply float_repr_inj.
Qed.

Lemma json_num_no_comma (n : pynum) : contains "," (json_num n) = false.
Proof.
  destruct n as [z|q]; cbn [json_num]; [|done].
  by apply pretty_Z_avoids; [apply digit_not_comma|].
Qed.

Lemma json_num_then_comma (n n' : pynum) (r r' : string) :
  json_num n +:+ ", " +:+ r = json_num n' +:+ ", " +:+ r' -> n = n' /\ r = r'.
Proof.
  intros H. apply split_at_char in H as [Hn [= Hr]];
    [|apply json_num_no_comma..].
  split; [by apply json_num_inj | done].
Qed.

Lemma dumps_tx_then (t t' : Tx) (r r' : string) :
  dumps_tx t +:+ r = dumps_tx t' +:+ r' -> t = t' /\ r = r'.
Proof.
  destruct t as [s rc a], t' as [s' rc' a']. unfold dumps_tx; cbn [sender recipient amount].
  rewrite !append_assoc. intros H.
  do 2 apply String.app_inj in H.
  apply json_num_then_comma in H as [-> H].
  apply String.app_inj in H.
  apply json_str_then in H as [-> H].
  do 2 apply String.app_inj in H.
  apply json_str_then in H as [-> H].
  apply String.app_inj in H. by subst.
Qed.

Lemma dumps_tx_head (t : Tx) : exists rest, dumps_tx t = String "{" rest.
Proof. unfold dumps_tx. eexists. reflexivity. Qed.

(** The items of a list, up to and including the closing bracket. *)
Lemma concat_cons_cons (x y : string) (l : list string) :
  String.concat ", " (x :: y :: l) = x +:+ ", " +:+ String.concat ", " (y :: l).
Proof. reflexivity. Qed.

Lemma items_then (l l' : list Tx) (r r' : string) :
  String.concat ", " (map dumps_tx l) +:+ "]" +:+ r
  = String.concat ", " (map dumps_tx l') +:+ "]" +:+ r' ->
  l = l' /\ r = r'.
Proof.
  revert l'; induction l as [|t l IH]; intros [|t' l'].
  - cbn [map String.concat]. rewrite !append_nil. intros H.
    apply String.app_inj in H. by subst.
  - cbn [map]. destruct (dumps_tx_head t') as [rest Ht'].
    destruct (map dumps_tx l') as [|y ys]; cbn [String.concat];
      rewrite ?append_nil, ?append_assoc, Ht'; discriminate.
  - cbn [map]. destruct (dumps_tx_head t) as [rest Ht].
    destruct (map dumps_tx l) as [|y ys]; cbn [String.concat];
      rewrite ?append_nil, ?append_assoc, Ht; discriminate.
  - destruct l as [|u l], l' as [|u' l']; cbn [map];
      rewrite ?concat_cons_cons; cbn [String.concat];
      rewrite ?(append_assoc (dumps_tx _)); intros H;
      apply dumps_tx_then in H as [-> H].
    + apply String.app_inj in H. by subst.
    + discriminate H.
    + discriminate H.
    + rewrite !(append_assoc ", ") in H. apply String.app_inj in H.
      destruct (IH (u' :: l') H) as [-> ->]. done.
Qed.

Lemma json_list_then (l l' : list Tx) (r r' : string) :
  json_list (map dumps_tx l) +:+ r = json_list (map dumps_tx l') +:+ r' ->
  l = l' /\ r = r'.
Proof.
  unfold json_list. rewrite !append_assoc. intros H.
  apply String.app_inj in H. by apply items_then.
Qed.

(** Two blocks with the same canonical text agree on the five fields. *)
Lemma dumps_block_inj (b b' : Block) :
  dumps_block b = dumps_block b' -> fields b = fields b'.
Proof.
  destruct b as [i p ts txs n h], b' as [i' p' ts' txs' n' h'].
  unfold dumps_block, fields;
    cbn [index prev_hash timestamp transactions nonce].
  intros H. do 2 apply String.app_inj in H.
  apply int_then_comma in H as [-> H].
  apply String.app_inj in H.
  apply int_then_comma in H as [-> H].
  apply String.app_inj in H.
  apply json_str_then in H as [-> H].
  do 2 apply String.app_inj in H.
  apply json_num_then_comma in H as [-> H].
  apply String.app_inj in H.
  apply json_list_then in H as [-> _]. done.
Qed.

End Encoding.

(** ** The hash and the encoder agree with hashlib and json on test values *)

Example sha256_constants :
  length SHA256.K = 64%nat
  /\ head SHA256.K = Some 0x428a2f98%Z /\ last SHA256.K = Some 0xc67178f2%Z
  /\ head SHA256.H0 = Some 0x6a09e667%Z /\ last SHA256.H0 = Some 0x5be0cd19%Z.
Proof. vm_compute. auto. Qed.

Example sha256_empty :
  SHA256.hexdigest "" =
  "e3b0c44298fc1c149afbf4c8996fb92427ae41e4649b934ca495991b7852b855"%string.
Proof. vm_compute. reflexivity. Qed.

Example sha256_abc :
  SHA256.hexdigest "abc" =
  "ba7816bf8f01cfea414140de5dae2223b00361a396177a9cb410ff61f20015ad"%string.
Proof. vm_compute. reflexivity. Qed.

Example sha256_two_blocks :
  SHA256.hexdigest (String.concat "" (repeat "a"%string 119)) =
  "31eba51c313a5c08226adf18d4a359cfdfd8d2e816b13f4af952f7ea6584dcfb"%string.
Proof. vm_compute. reflexivity. Qed.

Example sha256_pad_boundary :
  SHA256.hexdigest (String.concat "" (repeat "a"%string 55)) =
  "9f4390f8d30c2dd92ec9f095b65e2b9ae9b0a925a5258e241c9f1e910f734318"%string
  /\ SHA256.hexdigest (String.concat "" (repeat "a"%string 56)) =
  "b35439a4ac6f0948b6d6f9e3c6af0f5f590ce20f1bde7090ef7970686ec6738a"%string
  /\ SHA256.hexdigest (String.concat "" (repeat "a"%string 64)) =
  "ffe054fe7ae0cb6dc65c3af9b61d5209f439851db43d0ba5997337df154668eb"%string.
Proof. vm_compute. auto. Qed.

Example dumps_block_escapes :
  let tx := mkTx (String "A" (String "034" (String "\" (String "010"
                   (String "127" (String "233" ""))))))%char "B" (PyInt 5) in
  let b := mkBlock 1 (zeros 64) (PyInt 1700000000) [tx] 0 "" in
  compute_hash b =
  "6c87cad59a3f9d38974a7ba700c392113dde3dd7b2aa5174c1941ca969ffe660"%string.
Proof. vm_compute. reflexivity. Qed.

Example dumps_block_genesis_like :
  compute_hash (mkBlock 0 (zeros 64) (PyInt 1700000000) [] 0 "") =
  "8188b3ccf9bd8f8a1c3aa84901c86ea7d69150136e1ec434128c3e1d043ab6b3"%string.
Proof. vm_compute. reflexivity. Qed.

(** * Properties of the specification *)

(** C8 — proof of work.  Whenever [mine] returns, the hash of the block it
    returns starts with at least [d] characters ['0']; at difficulty 0 the
    very first test succeeds, so the block comes back as it was, nonce
    included. *)
Theorem mine_proof_of_work (b : Block) (d : Z) :
  (forall fuel b', mine fuel b d = Returns b' ->
     (d <= Z.of_nat (leading_zeros (hash b')))%Z)
  /\ (forall fuel, mine (S fuel) b 0 = Returns b).
Proof.
  split.
  - intros fuel b' H. apply mine_returns_inv in H as [H _].
    by apply prefix_zeros.
  - intros fuel. cbn [mine]. change (zeros 0) with EmptyString.
    by destruct (hash b).
Qed.

(** C6 — submitting a transaction.  [add_transaction] raises exactly when the
    sender's committed balance is strictly below the amount.  When it raises,
    mempool and ledger are as before; when it returns, the mempool has gained
    the transaction {sender, recipient, amount} at its end and the ledger is
    as before.  (The ledger is the mapping address -> balance with 0 for
    unseen addresses: the lookup may store that 0 under the sender.) *)
Theorem add_transaction_checks_balance (s : State) (sender recipient : string)
    (amount : pynum) :
  let r := add_transaction s sender recipient amount in
  ((exists e, fst r = Raises e) <-> balance (balances s) sender < num_val amount)
  /\ (balance (balances s) sender < num_val amount ->
        fst r = Raises (ValueError "Insufficient balance")
        /\ pending_tx (snd r) = pending_tx s
        /\ same_ledger (balances (snd r)) (balances s))
  /\ (~ balance (balances s) sender < num_val amount ->
        fst r = Returns (mkTx sender recipient amount)
        /\ pending_tx (snd r) = pending_tx s ++ [mkTx sender recipient amount]
        /\ same_ledger (balances (snd r)) (balances s)).
Proof.
  unfold add_transaction. case_decide as Hlt; cbn.
  - repeat split; try done.
    + eauto.
    + intros a. apply balance_touch.
  - repeat split; try done.
    + intros [e He]. discriminate.
    + intros a. apply balance_touch.
Qed.

(** C3 — mining over HTTP.  [Block] of blockchain_render.py has no [mine], so
    on every state whose chain holds a block the call [block.mine(DIFFICULTY)]
    raises AttributeError and the state is untouched; whatever the state,
    [mine_pending] never returns a block and never changes chain, ledger,
    counter or mempool. *)
Theorem mine_pending_render_raises (fuel : nat) (now : Qc) (s : State)
    (miner : string) :
  lookup_method Block_class_render "mine" = None
  /\ (chain s <> [] ->
        mine_pending_render fuel now s miner = (Raises (AttributeError "mine"), s))
  /\ snd (mine_pending_render fuel now s miner) = s
  /\ (forall blk, fst (mine_pending_render fuel now s miner) <> Returns blk).
Proof.
  rewrite mine_pending_render_eq. split; [reflexivity|].
  destruct (last (chain s)) as [head|] eqn:Hl.
  - by repeat split.
  - apply last_None in Hl. by repeat split.
Qed.

(** C5 — chain linkage.  In every state a node reaches from genesis, with
    either binding, the first block has index 0, 64 zeros as previous hash
    and no transaction, and every later block carries its own position and
    the hash of the block before it. *)
Theorem reachable_chain_linkage (b : binding) (s : State) :
  reachable b s ->
  (exists g, chain s !! 0%nat = Some g
     /\ index g = 0%Z /\ prev_hash g = zeros 64 /\ transactions g = [])
  /\ (forall (i : nat) (blk : Block),
        (0 < i)%nat -> chain s !! i = Some blk ->
        index blk = Z.of_nat i
        /\ exists p, chain s !! (i - 1)%nat = Some p /\ prev_hash blk = hash p).
Proof.
  intros Hr. destruct (reachable_chain_ok _ _ Hr) as [(g & Hg & Hshape) Hlink].
  split; [by exists g|].
  intros i blk Hi Hblk. destruct i as [|i]; [lia|].
  replace (S i - 1)%nat with i by lia.
  destruct (lookup_lt_is_Some_2 (chain s) i) as [p Hp].
  { apply lookup_lt_Some in Hblk. lia. }
  destruct (Hlink i p blk Hp Hblk) as [? ?]. eauto.
Qed.

(** C7 — same-height race.  Once a block has been accepted, a second block
    that claims the same index fails the index test, whatever else it holds,
    and the handler leaves the state as it is; more generally a block that is
    not accepted changes nothing. *)
Theorem same_height_race (now1 now1' now2 now2' : Qc) (s : State) (d1 d2 : Block) :
  index d2 = index d1 ->
  (accepts now1 s d1 = true ->
     let s1 := handler_new_block now1 now1' s d1 in
     length (chain s1) = S (length (chain s))
     /\ (index d2 =? Z.of_nat (length (chain s1)))%Z = false
     /\ handler_new_block now2 now2' s1 d2 = s1)
  /\ (accepts_render now1 s d1 = true ->
     let s1 := new_block now1 now1' s d1 in
     length (chain s1) = S (length (chain s))
     /\ (index d2 =? Z.of_nat (length (chain s1)))%Z = false
     /\ is_valid_block_render now2 s1 d2 = Returns false
     /\ new_block now2 now2' s1 d2 = s1)
  /\ (forall now now' s0 d, accepts now s0 d = false ->
        handler_new_block now now' s0 d = s0)
  /\ (forall now now' s0 d, accepts_render now s0 d = false ->
        new_block now now' s0 d = s0).
Proof.
  intros Hidx.
  assert (Hsocket : forall s0, accepts now1 s0 d1 = true ->
            length (chain (handler_new_block now1 now1' s0 d1)) = S (length (chain s0))
            /\ (index d2 =? Z.of_nat (length (chain (handler_new_block now1 now1' s0 d1))))%Z
               = false).
  { intros s0 Ha. rewrite handler_new_block_eq, Ha. cbn [chain].
    rewrite length_app. cbn [length]. apply accepts_spec in Ha as [Hi _].
    split; [lia|]. apply Z.eqb_neq. lia. }
  assert (Hrender : forall s0, accepts_render now1 s0 d1 = true ->
            length (chain (new_block now1 now1' s0 d1)) = S (length (chain s0))
            /\ (index d2 =? Z.of_nat (length (chain (new_block now1 now1' s0 d1))))%Z
               = false).
  { intros s0 Ha. rewrite new_block_eq, Ha. cbn [chain].
    rewrite length_app. cbn [length]. apply accepts_render_spec in Ha as [Hi _].
    split; [lia|]. apply Z.eqb_neq. lia. }
  split; [|split; [|split]].
  - intros Ha s1. destruct (Hsocket s Ha) as [Hlen Hneq].
    split; [exact Hlen|]. split; [exact Hneq|].
    rewrite (handler_new_block_eq now2). unfold accepts at 1.
    fold s1. fold s1 in Hneq. by rewrite Hneq.
  - intros Ha s1. destruct (Hrender s Ha) as [Hlen Hneq].
    assert (Hv : is_valid_block_render now2 s1 d2 = Returns false).
    { unfold is_valid_block_render. fold s1 in Hneq. by rewrite Hneq. }
    split; [exact Hlen|]. split; [exact Hneq|]. split; [exact Hv|].
    unfold new_block at 1. by rewrite Hv.
  - intros now now' s0 d Ha. by rewrite handler_new_block_eq, Ha.
  - intros now now' s0 d Ha. by rewrite new_block_eq, Ha.
Qed.


(** C10, as the code has it — the ledger and the counter.  At genesis the
    ledger is empty and the counter is 0.  [add_transaction] changes no
    balance, so it keeps the sum of all balances equal to [total_minted].
    [mine_pending] keeps it when none of its float operations is rounded:
    the reward goes to one balance and to the counter, a transaction moves
    its amount from one balance to another.  Where a sum or a difference is
    rounded, the balances drift from the counter.  [mine_pending] of
    blockchain_render.py raises and changes nothing. *)
Theorem ledger_sums_to_total_minted :
  (forall now,
     sum_balances (balances (create_genesis now)) = 0
     /\ total_minted (create_genesis now) = 0)
  /\ (forall s sender recipient amount,
        sum_balances (balances s) = total_minted s ->
        let s' := snd (add_transaction s sender recipient amount) in
        sum_balances (balances s') = total_minted s')
  /\ (forall fuel now s miner,
        sum_balances (balances s) = total_minted s ->
        exact_mine s miner ->
        let s' := snd (mine_pending64 fuel now s miner) in
        sum_balances (balances s') = total_minted s')
  /\ (forall fuel now s miner,
        sum_balances (balances s) = total_minted s ->
        let s' := snd (mine_pending_render fuel now s miner) in
        sum_balances (balances s') = total_minted s').
Proof.
  repeat split.
  - intros s sender recipient amount Hs. unfold add_transaction.
    case_decide; cbn; by rewrite sum_balances_touch.
  - intros fuel now s miner Hs Hex.
    rewrite (mine_pending64_exact fuel now s miner Hex), mine_pending_eq.
    destruct (last (chain s)); [|done].
    destruct (mine _ _ _); [|done..]. cbn.
    by rewrite sum_balances_apply_txs, sum_balances_credit, Hs.
  - intros fuel now s miner Hs. rewrite mine_pending_render_eq.
    by destruct (last (chain s)).
Qed.

(** C1, as the code has it — the validator applies three checks.  A candidate
    is accepted exactly when its index is the length of the chain, its
    previous hash is the hash of the head, and its declared hash is the one
    recomputed from its fields; the number of leading zeros of the hash is
    never looked at.  In blockchain.py the index test sits in the handler,
    in front of [is_valid_block]. *)
Theorem is_valid_block_three_checks (now : Qc) (s : State) (blk : Block) :
  (is_valid_block_render now s blk = Returns true <-> passes_checks now s blk)
  /\ (accepts now s blk = true <-> passes_checks now s blk)
  /\ (is_valid_block now s blk = Returns true <->
        recomputed_hash now blk = hash blk
        /\ exists head, last (chain s) = Some head /\ prev_hash blk = hash head).
Proof.
  split; [apply is_valid_block_render_true|].
  split; [apply accepts_spec | apply is_valid_block_true].
Qed.



(** * Further properties of the code *)

(** ** The search of [Block.mine] *)

Lemma iter_next_nonce_fields (k : nat) (b : Block) :
  index (Nat.iter k next_nonce b) = index b
  /\ prev_hash (Nat.iter k next_nonce b) = prev_hash b
  /\ timestamp (Nat.iter k next_nonce b) = timestamp b
  /\ transactions (Nat.iter k next_nonce b) = transactions b
  /\ nonce (Nat.iter k next_nonce b) = (nonce b + Z.of_nat k)%Z.
Proof.
  induction k as [|k (Hi & Hp & Ht & Hx & Hn)].
  - cbn. repeat split. lia.
  - rewrite Nat.iter_succ. unfold next_nonce at 1 3 5 7 9.
    cbn [index prev_hash timestamp transactions nonce set_hash set_nonce].
    repeat split; try done. lia.
Qed.

Lemma mine_first_hit (fuel : nat) (b b' : Block) (d : Z) :
  mine fuel b d = Returns b' <->
  exists k : nat, (k < fuel)%nat /\ b' = Nat.iter k next_nonce b
    /\ meets_target d b' = true
    /\ forall j : nat, (j < k)%nat ->
         meets_target d (Nat.iter j next_nonce b) = false.
Proof.
  revert b. induction fuel as [|fuel IH]; intros b.
  - split; [discriminate|]. intros (k & Hk & _). lia.
  - cbn [mine]. fold (meets_target d b). destruct (meets_target d b) eqn:Hb.
    + split.
      * intros [= <-]. exists 0%nat. repeat split; [lia|done|]. intros j Hj. lia.
      * intros (k & Hk & -> & Hm & Hmin). destruct k as [|k]; [done|].
        specialize (Hmin 0%nat). cbn in Hmin. rewrite Hb in Hmin.
        discriminate Hmin. lia.
    + rewrite IH. split.
      * intros (k & Hk & -> & Hm & Hmin). exists (S k).
        rewrite Nat.iter_succ_r. split; [lia|]. split; [done|]. split; [done|].
        intros [|j] Hj; [done|]. rewrite Nat.iter_succ_r. apply Hmin. lia.
      * intros (k & Hk & -> & Hm & Hmin). destruct k as [|k].
        { cbn in Hm. congruence. }
        exists k. rewrite Nat.iter_succ_r in Hm |- *.
        split; [lia|]. split; [done|]. split; [done|].
        intros j Hj. rewrite <- Nat.iter_succ_r. apply Hmin. lia.
Qed.

Lemma mine_keeps_digest (fuel : nat) (b b' : Block) (d : Z) :
  hash b = compute_hash b -> mine fuel b d = Returns b' ->
  hash b' = compute_hash b'.
Proof.
  revert b. induction fuel as [|fuel IH]; intros b Hb; [discriminate|].
  cbn [mine]. destruct (String.prefix _ _).
  - by intros [= <-].
  - apply IH. reflexivity.
Qed.

(** X1 — the search of [Block.mine].  The call returns a block exactly when
    the fuel reaches the first number [k] of increments after which the hash
    starts with the target; it returns that block: the first nonce at or
    after the initial one whose digest meets the target, all other fields
    untouched.  More fuel never changes the answer. *)
Theorem mine_first_nonce (fuel : nat) (b b' : Block) (d : Z) :
  (mine fuel b d = Returns b' <->
   exists k : nat, (k < fuel)%nat /\ b' = Nat.iter k next_nonce b
     /\ nonce b' = (nonce b + Z.of_nat k)%Z
     /\ meets_target d b' = true
     /\ forall j : nat, (j < k)%nat ->
          meets_target d (Nat.iter j next_nonce b) = false)
  /\ (forall fuel' b'', mine fuel b d = Returns b' ->
        mine fuel' b d = Returns b'' -> b'' = b')
  /\ (mine fuel b d = Returns b' ->
        fields (set_nonce b' 0) = fields (set_nonce b 0)).
Proof.
  split; [|split].
  - rewrite mine_first_hit. split.
    + intros (k & Hk & -> & Hm & Hmin). exists k.
      repeat split; try done. apply iter_next_nonce_fields.
    + intros (k & Hk & -> & _ & Hm & Hmin). by exists k.
  - intros fuel' b'' H1 H2.
    apply mine_first_hit in H1 as (k & _ & -> & Hm & Hmin).
    apply mine_first_hit in H2 as (k' & _ & -> & Hm' & Hmin').
    destruct (Nat.lt_trichotomy k k') as [Hlt|[->|Hlt]]; [|done|].
    + rewrite (Hmin' k Hlt) in Hm. discriminate.
    + rewrite (Hmin k' Hlt) in Hm'. discriminate.
  - intros (k & _ & -> & _)%mine_first_hit.
    destruct (iter_next_nonce_fields k b) as (Hi & Hp & Ht & Hx & _).
    unfold fields, set_nonce. cbn. by rewrite Hi, Hp, Ht, Hx.
Qed.

(** ** Settling transactions *)

Lemma balance_apply_tx (d : gmap string Qc) (tx : Tx) (a : string) :
  balance (apply_tx d tx) a
  = balance d a
    - (if decide (sender tx = a) then num_val (amount tx) else 0)
    + (if decide (recipient tx = a) then num_val (amount tx) else 0).
Proof.
  unfold apply_tx. rewrite balance_credit.
  destruct (decide (recipient tx = a)) as [Hr|Hr];
    rewrite balance_debit; destruct (decide (sender tx = a)) as [Hs|Hs];
    try (rewrite decide_True by congruence);
    try (rewrite decide_False by congruence);
    rewrite ?Hr, ?Hs; ring.
Qed.

Lemma balance_apply_txs (txs : list Tx) (d : gmap string Qc) (a : string) :
  balance (apply_txs d txs) a = balance d a - outflow a txs + inflow a txs.
Proof.
  unfold apply_txs. revert d. induction txs as [|tx txs IH]; intros d.
  - cbn. ring.
  - cbn [fold_left outflow inflow foldr]. rewrite IH, balance_apply_tx.
    fold (outflow a txs). fold (inflow a txs). ring.
Qed.

Lemma apply_tx_keeps_keys (d : gmap string Qc) (tx : Tx) (k : string) :
  is_Some (d !! k) \/ k = sender tx \/ k = recipient tx ->
  is_Some (apply_tx d tx !! k).
Proof.
  intros Hk. unfold apply_tx, credit, debit.
  destruct (decide (recipient tx = k)) as [->|Hr]; [by rewrite lookup_insert_eq|].
  rewrite lookup_insert_ne by done.
  destruct (decide (sender tx = k)) as [->|Hs]; [by rewrite lookup_insert_eq|].
  rewrite lookup_insert_ne by done.
  destruct Hk as [Hk|[->| ->]]; done.
Qed.

Lemma apply_txs_keeps_keys (txs : list Tx) (d : gmap string Qc) (k : string) :
  is_Some (d !! k) -> is_Some (apply_txs d txs !! k).
Proof.
  revert d. induction txs as [|tx txs IH]; intros d Hk; [done|].
  cbn [apply_txs fold_left]. apply IH, apply_tx_keeps_keys. by left.
Qed.


(** ** Submitting transactions *)

Lemma add_transaction_returns (s : State) (a b : string) (n : pynum) :
  num_val n <= balance (balances s) a ->
  add_transaction s a b n
  = (Returns (mkTx a b n),
     mkState (chain s) (pending_tx s ++ [mkTx a b n])
             (touch (balances s) a) (total_minted s)).
Proof.
  intros Hle. unfold add_transaction.
  rewrite decide_False; [done|]. by apply Qcle_not_lt.
Qed.


(** X4 — no sign check.  A transfer of a negative amount passes the balance
    test of every sender whose balance is not negative, and is queued like
    any other. *)
Theorem negative_amount_accepted (s : State) (a r : string) (n : pynum) :
  num_val n < 0 -> 0 <= balance (balances s) a ->
  fst (add_transaction s a r n) = Returns (mkTx a r n)
  /\ pending_tx (snd (add_transaction s a r n)) = pending_tx s ++ [mkTx a r n].
Proof.
  intros Hneg Hbal. rewrite add_transaction_returns; [done|].
  apply Qclt_le_weak. by apply Qclt_le_trans with 0.
Qed.

(** ** The [NEW_TX] branch of the socket handler *)

Lemma tx_eqb_refl (d : Tx) : tx_eqb d d = true.
Proof.
  unfold tx_eqb. rewrite !String.eqb_refl. cbn. by apply bool_decide_eq_true.
Qed.

Lemma touch_touch (d : gmap string Qc) (k : string) :
  touch (touch d k) k = touch d k.
Proof.
  unfold touch at 1. rewrite balance_touch. unfold touch.
  by rewrite insert_insert_eq.
Qed.

(** X5 — duplicate suppression.  A [NEW_TX] message whose transaction is
    already in the mempool changes nothing, and handling the same message
    twice leaves the node where the first handling left it.  The test sits
    in the handler only: [add_transaction] itself, called twice with the same
    arguments, queues the transaction twice. *)
Theorem handler_new_tx_idempotent (s : State) (d : Tx) :
  (existsb (tx_eqb d) (pending_tx s) = true -> handler_new_tx s d = s)
  /\ handler_new_tx (handler_new_tx s d) d = handler_new_tx s d
  /\ (num_val (amount d) <= balance (balances s) (sender d) ->
        existsb (tx_eqb d) (pending_tx s) = false ->
        pending_tx (handler_new_tx s d) = pending_tx s ++ [d]
        /\ pending_tx (snd (add_transaction
                              (snd (add_transaction s (sender d) (recipient d) (amount d)))
                              (sender d) (recipient d) (amount d)))
           = pending_tx s ++ [d; d]).
Proof.
  assert (Heta : mkTx (sender d) (recipient d) (amount d) = d) by by destruct d.
  split; [|split].
  - intros H. unfold handler_new_tx. by rewrite H.
  - unfold handler_new_tx at 2 3.
    destruct (existsb (tx_eqb d) (pending_tx s)) eqn:Hex.
    + unfold handler_new_tx. by rewrite Hex.
    + unfold add_transaction. case_decide as Hlt; cbn [snd].
      * unfold handler_new_tx. cbn [pending_tx]. rewrite Hex.
        unfold add_transaction. cbn [balances chain pending_tx total_minted].
        rewrite balance_touch, decide_True by done. cbn [snd].
        by rewrite touch_touch.
      * unfold handler_new_tx. cbn [pending_tx].
        by rewrite existsb_app, Heta, Hex; cbn; rewrite tx_eqb_refl.
  - intros Hle Hex. unfold handler_new_tx. rewrite Hex.
    rewrite add_transaction_returns by done. cbn [snd pending_tx].
    rewrite add_transaction_returns
      by (cbn [balances]; by rewrite balance_touch).
    cbn [snd pending_tx]. rewrite Heta. split; [done|]. by rewrite <- app_assoc.
Qed.

(** ** Blocks as they are rebuilt *)

Lemma compute_hash_fields (b b' : Block) :
  fields b = fields b' -> compute_hash b = compute_hash b'.
Proof.
  destruct b, b'. unfold fields, compute_hash, dumps_block. cbn.
  by intros [= -> -> -> -> ->].
Qed.

Lemma Block_init_truthy (now : Qc) (d : Block) :
  truthy (timestamp d) = true ->
  Block_init now (index d) (prev_hash d) (transactions d) (Some (timestamp d))
    (nonce d) = set_hash d (compute_hash d).
Proof.
  intros Ht. unfold Block_init. rewrite Ht. destruct d. unfold set_hash.
  cbn [index prev_hash timestamp transactions nonce hash].
  by f_equal.
Qed.

Lemma Block_init_falsy (now : Qc) (d : Block) :
  truthy (timestamp d) = false ->
  Block_init now (index d) (prev_hash d) (transactions d) (Some (timestamp d))
    (nonce d)
  = set_hash (with_timestamp d (PyFloat now))
      (compute_hash (with_timestamp d (PyFloat now))).
Proof.
  intros Ht. unfold Block_init. rewrite Ht. destruct d.
  unfold set_hash, with_timestamp.
  cbn [index prev_hash timestamp transactions nonce hash].
  by f_equal.
Qed.

Lemma Block_init_digest (now : Qc) (i : Z) (p : string) (txs : list Tx)
    (t : option pynum) (n : Z) :
  hash (Block_init now i p txs t n) = compute_hash (Block_init now i p txs t n).
Proof.
  unfold Block_init. cbn [set_hash hash]. by apply compute_hash_fields.
Qed.

Lemma truthy_clock (now : Qc) : now <> 0 -> truthy (PyFloat now) = true.
Proof.
  intros Hnow. unfold truthy. cbn [num_val]. by rewrite bool_decide_eq_false_2.
Qed.

Lemma recomputed_hash_truthy (now : Qc) (d : Block) :
  truthy (timestamp d) = true -> recomputed_hash now d = compute_hash d.
Proof. intros Ht. unfold recomputed_hash. by rewrite Block_init_truthy. Qed.

Lemma load_block_truthy (now : Qc) (d : Block) :
  truthy (timestamp d) = true -> load_block now d = d.
Proof.
  intros Ht. unfold load_block. rewrite Block_init_truthy by done. by destruct d.
Qed.

Lemma accepts_both (now : Qc) (s : State) (d : Block) :
  accepts now s d = accepts_render now s d.
Proof.
  apply eq_true_iff_eq. by rewrite accepts_spec, accepts_render_spec.
Qed.

Lemma inbound_block_rebuilt (now now' : Qc) (s : State) (d : Block) :
  truthy (timestamp d) = true ->
  set_hash (Block_init now' (index d) (prev_hash d) (transactions d)
              (Some (timestamp d)) (nonce d)) (hash d) = d
  /\ (accepts_render now s d = true ->
        Block_init now' (index d) (prev_hash d) (transactions d)
          (Some (timestamp d)) (nonce d) = d).
Proof.
  intros Ht. split; [apply (load_block_truthy now' d Ht)|].
  intros (_ & _ & Hh)%accepts_render_spec.
  rewrite recomputed_hash_truthy in Hh by done.
  rewrite Block_init_truthy, Hh by done. by destruct d.
Qed.

Lemma inbound_block_shape (now now' : Qc) (s : State) (d : Block) :
  truthy (timestamp d) = true ->
  (accepts now s d = true ->
     chain (handler_new_block now now' s d) = chain s ++ [d])
  /\ (accepts_render now s d = true ->
        chain (new_block now now' s d) = chain s ++ [d]).
Proof.
  intros Ht. destruct (inbound_block_rebuilt now now' s d Ht) as [Hsock Hrend].
  split; intros Ha.
  - rewrite handler_new_block_eq, Ha. cbn [chain]. by rewrite Hsock.
  - rewrite new_block_eq, Ha. cbn [chain]. by rewrite Hrend.
Qed.

(** X6 — an inbound block with a non-zero timestamp.  Whether it is accepted
    does not depend on the clock, the block appended is the block received,
    field for field, and the socket handler and the route [POST /block] leave
    the node in the same state. *)
Theorem inbound_block_stored_as_received (now now' : Qc) (s : State) (d : Block) :
  truthy (timestamp d) = true ->
  (forall now2, accepts now2 s d = accepts now s d)
  /\ (accepts now s d = true ->
        chain (handler_new_block now now' s d) = chain s ++ [d])
  /\ (accepts_render now s d = true ->
        chain (new_block now now' s d) = chain s ++ [d])
  /\ handler_new_block now now' s d = new_block now now' s d.
Proof.
  intros Ht. destruct (inbound_block_rebuilt now now' s d Ht) as [Hsock Hrend].
  destruct (inbound_block_shape now now' s d Ht) as [Hs1 Hs2].
  split; [|split; [done|split; [done|]]].
  - intros now2. apply eq_true_iff_eq. rewrite !accepts_spec.
    unfold passes_checks. by rewrite !recomputed_hash_truthy.
  - rewrite handler_new_block_eq, new_block_eq, accepts_both.
    destruct (accepts_render now s d) eqn:Ha; [|done].
    by rewrite Hsock, Hrend.
Qed.

(** X7 — an inbound block that declares timestamp 0.  [Block.__init__] puts
    the clock in its place, so the digest the validator compares is that of
    the block with the receiver's time.  When the block is accepted, what is
    appended carries the time of the rebuilding: in blockchain.py together
    with the declared hash, which is the digest for the time of the check;
    in blockchain_render.py with a freshly computed digest. *)
Theorem zero_timestamp_takes_the_clock (now now' : Qc) (s : State) (d : Block) :
  truthy (timestamp d) = false ->
  recomputed_hash now d = compute_hash (with_timestamp d (PyFloat now))
  /\ (accepts now s d = true ->
        chain (handler_new_block now now' s d)
        = chain s ++ [with_timestamp d (PyFloat now')]
        /\ hash d = compute_hash (with_timestamp d (PyFloat now)))
  /\ (accepts_render now s d = true ->
        chain (new_block now now' s d)
        = chain s ++ [set_hash (with_timestamp d (PyFloat now'))
                        (compute_hash (with_timestamp d (PyFloat now')))]).
Proof.
  intros Ht.
  assert (Hre : forall t, recomputed_hash t d
                          = compute_hash (with_timestamp d (PyFloat t))).
  { intros t. unfold recomputed_hash. by rewrite Block_init_falsy. }
  split; [apply Hre|]. split.
  - intros Ha. rewrite handler_new_block_eq, Ha. cbn [chain].
    apply accepts_spec in Ha as (_ & _ & Hh). rewrite Hre in Hh.
    split; [|done]. rewrite Block_init_falsy by done. by destruct d.
  - intros Ha. rewrite new_block_eq, Ha. cbn [chain].
    by rewrite Block_init_falsy.
Qed.

(** ** The digest of a stored block *)

Lemma chain_hashed_snoc (c : list Block) (b : Block) :
  chain_hashed c -> hash b = compute_hash b -> chain_hashed (c ++ [b]).
Proof.
  intros Hc Hb x [Hx|Hx%list_elem_of_singleton]%elem_of_app; [by apply Hc|by subst].
Qed.

Lemma chain_hashed_genesis (now : Qc) : chain_hashed (chain (create_genesis now)).
Proof.
  intros b Hb%list_elem_of_singleton. subst. apply Block_init_digest.
Qed.

Lemma chain_hashed_new_block (now now' : Qc) (s : State) (d : Block) :
  chain_hashed (chain s) -> chain_hashed (chain (new_block now now' s d)).
Proof.
  intros Hc. rewrite new_block_eq. destruct (accepts_render now s d); [|done].
  cbn [chain]. apply chain_hashed_snoc; [done|]. apply Block_init_digest.
Qed.

Lemma chain_hashed_mine_pending (fuel : nat) (now : Qc) (s : State) (m : string) :
  chain_hashed (chain s) -> chain_hashed (chain (snd (mine_pending fuel now s m))).
Proof.
  intros Hc. rewrite mine_pending_eq. destruct (last (chain s)); [|done].
  destruct (mine _ _ _) as [blk| |] eqn:Hm; [|done..]. cbn [snd chain].
  apply chain_hashed_snoc; [done|].
  eapply mine_keeps_digest; [|exact Hm]. apply Block_init_digest.
Qed.

(** X8 — over HTTP every stored hash is a digest.  In every state a node of
    blockchain_render.py reaches from genesis, the [hash] of each block of
    the chain is the SHA-256 digest of that block's own five fields: genesis
    is built by [Block.__init__], and [POST /block] appends a block it has
    built afresh. *)
Theorem render_stored_hash_is_digest (s : State) :
  reachable Render s -> chain_hashed (chain s).
Proof.
  induction 1 as [now|s s' _ IH Hst]; [apply chain_hashed_genesis|].
  inversion Hst; subst.
  - by destruct (add_transaction_chain s sender0 recipient0 amount0) as [-> _].
  - rewrite mine_pending_render_eq. by destruct (last (chain s)).
  - by apply chain_hashed_new_block.
Qed.

(** X9 — the stored hashes of blockchain.py.  Mining keeps every stored hash
    the digest of its block, and so does an inbound block with a non-zero
    timestamp; the socket handler stores the declared hash, which the
    validator has just compared with the digest. *)
Theorem socket_stored_hash_is_digest (s : State) :
  chain_hashed (chain s) ->
  (forall fuel now miner,
     chain_hashed (chain (snd (mine_pending fuel now s miner))))
  /\ (forall now now' d, truthy (timestamp d) = true ->
        chain_hashed (chain (handler_new_block now now' s d)))
  /\ (forall now d, chain_hashed (chain (handler_new_block now now s d))).
Proof.
  intros Hc. split; [|split].
  - intros fuel now miner. by apply chain_hashed_mine_pending.
  - intros now now' d Ht. rewrite handler_new_block_eq.
    destruct (accepts now s d) eqn:Ha; [|done]. cbn [chain].
    apply chain_hashed_snoc; [done|].
    fold (load_block now' d). rewrite load_block_truthy by done.
    apply accepts_spec in Ha as (_ & _ & Hh).
    by rewrite recomputed_hash_truthy in Hh.
  - intros now d. rewrite handler_new_block_eq.
    destruct (accepts now s d) eqn:Ha; [|done]. cbn [chain].
    apply chain_hashed_snoc; [done|].
    apply accepts_spec in Ha as (_ & _ & Hh). unfold recomputed_hash in Hh.
    cbn [set_hash hash]. rewrite <- Hh at 1. rewrite Block_init_digest.
    by apply compute_hash_fields.
Qed.

(** ** Chains that cannot grow, chains that have parted *)

(** X10 — an empty chain.  With no block in the chain (a snapshot may hold
    none) [self.chain[-1]] raises IndexError: [mine_pending] raises it at
    once, the validators raise it for a block that gets as far as the link
    test, both inbound handlers leave the state as it is, and no sequence of
    operations ever puts a block in the chain. *)
Theorem empty_chain_is_stuck (b : binding) (s : State) :
  chain s = [] ->
  (forall fuel now miner,
     mine_pending fuel now s miner = (Raises IndexError, s)
     /\ mine_pending_render fuel now s miner = (Raises IndexError, s))
  /\ (forall now d,
        (recomputed_hash now d = hash d -> is_valid_block now s d = Raises IndexError)
        /\ (index d = 0%Z -> is_valid_block_render now s d = Raises IndexError))
  /\ (forall now now' d,
        handler_new_block now now' s d = s /\ new_block now now' s d = s)
  /\ (forall s', rtc (step b) s s' -> chain s' = []).
Proof.
  intros He.
  assert (Hl : last (chain s) = None) by by rewrite He.
  assert (Hna : forall now d, accepts now s d = false).
  { intros now d. apply not_true_is_false. rewrite accepts_spec.
    intros (_ & (head & Hh & _) & _). congruence. }
  split; [|split; [|split]].
  - intros fuel now miner. unfold mine_pending, mine_pending_render. by rewrite Hl.
  - intros now d. split.
    + intros Hh. unfold is_valid_block. fold (recomputed_hash now d).
      by rewrite Hh, String.eqb_refl, Hl.
    + intros Hi. unfold is_valid_block_render. by rewrite Hi, He.
  - intros now now' d. rewrite handler_new_block_eq, new_block_eq.
    by rewrite <- accepts_both, Hna.
  - intros s' Hrtc. clear Hl Hna. induction Hrtc as [s|s s1 s2 Hst _ IH]; [done|].
    apply IH. destruct (step_chain _ _ _ Hst) as [->|(blk & head & _ & Hlast & _)].
    + done.
    + rewrite He in Hlast. discriminate.
Qed.

(** X11 — chains that have parted.  The link test compares the declared
    previous hash with the receiver's own head and nothing else, so two
    nodes whose heads carry different hashes never accept the same block;
    this holds in particular for two nodes that each made their own genesis
    block, whose digest includes the time of its making. *)
Theorem diverged_heads_share_no_block (now1 now2 : Qc) (s1 s2 : State) (d : Block) :
  head_hash s1 <> head_hash s2 ->
  (accepts now1 s1 d = true -> accepts now2 s2 d = false)
  /\ (accepts_render now1 s1 d = true -> accepts_render now2 s2 d = false).
Proof.
  intros Hne.
  assert (H : passes_checks now1 s1 d -> ~ passes_checks now2 s2 d).
  { intros (_ & (h1 & Hl1 & Hp1) & _) (_ & (h2 & Hl2 & Hp2) & _).
    apply Hne. unfold head_hash. rewrite Hl1, Hl2. congruence. }
  split; intros Ha; apply not_true_is_false.
  - rewrite accepts_spec. apply H. by apply accepts_spec.
  - rewrite accepts_render_spec. apply H. by apply accepts_render_spec.
Qed.

Lemma step_prefix (b : binding) (s s' : State) :
  step b s s' -> chain s `prefix_of` chain s'.
Proof.
  intros Hst. destruct (step_chain _ _ _ Hst) as [->|(blk & _ & -> & _)]; [done|].
  by apply prefix_app_r.
Qed.

(** X12 — the chain is append-only.  No operation of either binding removes
    or rewrites a block: along every run the old chain is a prefix of the
    new one, so a block stays at its position for good and the chain never
    gets shorter.  (No branch of the code replaces a chain by a longer one
    of a peer either.) *)
Theorem chain_is_append_only (b : binding) (s s' : State) :
  rtc (step b) s s' ->
  chain s `prefix_of` chain s'
  /\ (length (chain s) <= length (chain s'))%nat
  /\ forall i blk, chain s !! i = Some blk -> chain s' !! i = Some blk.
Proof.
  intros Hrtc.
  assert (Hp : chain s `prefix_of` chain s').
  { induction Hrtc as [s|s s1 s2 Hst _ IH]; [done|].
    etrans; [by eapply step_prefix|done]. }
  split; [done|]. split; [by apply prefix_length|].
  intros i blk Hi. by eapply prefix_lookup_Some.
Qed.

(** ** The counter and the ledger over a run *)

Lemma MAX_SUPPLY_in_rewards : MAX_SUPPLY = Qc_of_Z 3360000 * BLOCK_REWARD.
Proof. apply Qc_is_canon. by vm_compute. Qed.

Lemma BLOCK_REWARD_pos : 0 < BLOCK_REWARD.
Proof. by vm_compute. Qed.

Lemma reward_of_multiple (k : Z) :
  (0 <= k <= 3360000)%Z ->
  reward (Qc_of_Z k * BLOCK_REWARD)
  = if decide (k < 3360000)%Z then BLOCK_REWARD else 0.
Proof.
  intros Hk. unfold reward, py_min.
  assert (E : MAX_SUPPLY - Qc_of_Z k * BLOCK_REWARD
              = Qc_of_Z (3360000 - k) * BLOCK_REWARD).
  { rewrite MAX_SUPPLY_in_rewards, Z2Qc_inj_sub. ring. }
  rewrite E.
  assert (Hiff : Qc_of_Z (3360000 - k) * BLOCK_REWARD < BLOCK_REWARD
                 <-> (3360000 - k < 1)%Z).
  { split; intros H.
    - apply Z2Qc_inj_lt. rewrite Z2Qc_inj_1.
      apply (Qcmult_lt_mono_pos_r _ _ _ BLOCK_REWARD_pos).
      by rewrite Qcmult_1_l.
    - apply Z2Qc_inj_lt in H. rewrite Z2Qc_inj_1 in H.
      apply (Qcmult_lt_mono_pos_r _ _ _ BLOCK_REWARD_pos) in H.
      by rewrite Qcmult_1_l in H. }
  destruct (decide (k < 3360000)%Z) as [Hlt|Hge].
  - rewrite decide_False; [done|]. rewrite Hiff. lia.
  - rewrite decide_True by (rewrite Hiff; lia).
    replace (3360000 - k)%Z with 0%Z by lia. rewrite Z2Qc_inj_0. ring.
Qed.

Lemma reachable_total_minted_multiple (b : binding) (s : State) :
  reachable b s ->
  exists k : Z, (0 <= k <= 3360000)%Z
    /\ total_minted s = Qc_of_Z k * BLOCK_REWARD.
Proof.
  induction 1 as [now|s s' _ (k & Hk & IH) Hst].
  - exists 0%Z. split; [lia|]. cbn [create_genesis total_minted].
    rewrite Z2Qc_inj_0. ring.
  - destruct (step_total_minted _ _ _ Hst) as [->| ->]; [by exists k|].
    rewrite IH, reward_of_multiple by done.
    destruct (decide (k < 3360000)%Z) as [Hlt|Hge].
    + exists (k + 1)%Z. split; [lia|]. rewrite Z2Qc_inj_add, Z2Qc_inj_1. ring.
    + exists k. split; [done|]. ring.
Qed.

(** X13 — the reward schedule from genesis.  MAX_SUPPLY is 3 360 000 block
    rewards exactly, so along every run that starts from genesis the counter
    is a whole number of block rewards, the reward of the next block is the
    full BLOCK_REWARD or nothing, and the partial reward that
    [min(BLOCK_REWARD, MAX_SUPPLY - total_minted)] provides for is never
    paid. *)
Theorem total_minted_whole_rewards (b : binding) (s : State) :
  reachable b s ->
  (exists k : Z, (0 <= k <= 3360000)%Z
     /\ total_minted s = Qc_of_Z k * BLOCK_REWARD
     /\ reward (total_minted s)
        = if decide (k < 3360000)%Z then BLOCK_REWARD else 0)
  /\ (reward (total_minted s) = BLOCK_REWARD \/ reward (total_minted s) = 0).
Proof.
  intros Hr. destruct (reachable_total_minted_multiple _ _ Hr) as (k & Hk & Ht).
  assert (Hrew := reward_of_multiple k Hk). rewrite <- Ht in Hrew.
  split; [by exists k|]. rewrite Hrew. case_decide; auto.
Qed.

(** ** A mined block, here and at a peer *)

Lemma mine_pending_inv (fuel : nat) (now : Qc) (s s' : State) (miner h : string) :
  mine_pending fuel now s miner = (Returns h, s') ->
  exists blk head,
    last (chain s) = Some head
    /\ mine fuel (Block_init now (Z.of_nat (length (chain s))) (hash head)
                    (pending_tx s) None 0) DIFFICULTY = Returns blk
    /\ h = hash blk
    /\ s' = mkState (chain s ++ [blk]) []
              (apply_txs (credit (balances s) miner (reward (total_minted s)))
                 (pending_tx s))
              (total_minted s + reward (total_minted s)).
Proof.
  rewrite mine_pending_eq. destruct (last (chain s)) as [head|]; [|discriminate].
  destruct (mine _ _ _) as [blk| |] eqn:Hm; [|discriminate..].
  intros [= <- <-]. by exists blk, head.
Qed.

Lemma mine_pending_block (fuel : nat) (now : Qc) (s s' : State) (miner h : string) :
  mine_pending fuel now s miner = (Returns h, s') ->
  exists blk head,
    chain s' = chain s ++ [blk] /\ last (chain s) = Some head
    /\ index blk = Z.of_nat (length (chain s)) /\ prev_hash blk = hash head
    /\ timestamp blk = PyFloat now /\ transactions blk = pending_tx s
    /\ hash blk = h /\ h = compute_hash blk.
Proof.
  intros (blk & head & Hl & Hm & -> & ->)%mine_pending_inv.
  exists blk, head. cbn [chain].
  destruct (mine_returns_inv _ _ _ _ Hm) as (_ & Hi & Hp & Ht & Hx & _).
  repeat split; try done.
  eapply mine_keeps_digest; [|exact Hm]. apply Block_init_digest.
Qed.

(** X15 — what [mine_pending] appends.  When the call returns, the chain has
    gained one block: its index is the old length, its previous hash the hash
    of the old head, its timestamp the clock at the start of the call, its
    transactions the whole mempool as it stood; the value returned is its
    hash, which is the digest of its fields and starts with DIFFICULTY
    zeros.  The mempool is empty afterwards. *)
Theorem mine_pending_appends_block (fuel : nat) (now : Qc) (s s' : State)
    (miner h : string) :
  mine_pending fuel now s miner = (Returns h, s') ->
  exists blk head,
    chain s' = chain s ++ [blk] /\ last (chain s) = Some head
    /\ index blk = Z.of_nat (length (chain s)) /\ prev_hash blk = hash head
    /\ timestamp blk = PyFloat now /\ transactions blk = pending_tx s
    /\ hash blk = h /\ h = compute_hash blk
    /\ (DIFFICULTY <= Z.of_nat (leading_zeros h))%Z
    /\ is_hexdigest h
    /\ pending_tx s' = [].
Proof.
  intros Hmp. destruct (mine_pending_block _ _ _ _ _ _ Hmp)
    as (blk & head & Hc & Hl & Hi & Hp & Ht & Hx & Hh & Hd).
  exists blk, head. repeat split; try done.
  - apply mine_pending_inv in Hmp as (blk' & head' & _ & Hm & Hh' & _).
    apply mine_returns_inv in Hm as [Hm _]. rewrite Hh'. by apply prefix_zeros.
  - rewrite Hd. apply hexdigest_shape.
  - rewrite Hd. apply hexdigest_shape.
  - apply mine_pending_inv in Hmp as (blk' & head' & _ & _ & _ & Hs'). by rewrite Hs'.
Qed.

Lemma mined_block_passes (fuel : nat) (now now1 : Qc) (s s' p : State)
    (miner h : string) :
  mine_pending fuel now s miner = (Returns h, s') ->
  now <> 0 -> chain p = chain s ->
  exists blk,
    chain s' = chain s ++ [blk] /\ hash blk = h
    /\ transactions blk = pending_tx s
    /\ truthy (timestamp blk) = true
    /\ passes_checks now1 p blk.
Proof.
  intros Hmp Hnow Hp.
  destruct (mine_pending_block _ _ _ _ _ _ Hmp)
    as (blk & head & Hc & Hl & Hi & Hph & Ht & Hx & Hh & Hd).
  assert (Htr : truthy (timestamp blk) = true).
  { rewrite Ht. unfold truthy. cbn [num_val].
    by rewrite bool_decide_eq_false_2. }
  exists blk. repeat split; try done.
  - by rewrite Hp.
  - rewrite Hp. by exists head.
  - rewrite recomputed_hash_truthy by done. congruence.
Qed.

(** X16 — a mined block at a peer.  A block that [mine_pending] has produced
    at a non-zero clock passes the checks of every node whose chain is the
    chain the miner started from, at any time and in either binding; the
    peer's chain then equals the miner's, and if the peer also had the
    miner's counter, the counters agree afterwards. *)
Theorem mined_block_accepted_by_peer (fuel : nat) (now now1 now2 : Qc)
    (s s' p : State) (miner h : string) :
  mine_pending fuel now s miner = (Returns h, s') ->
  now <> 0 -> chain p = chain s ->
  exists blk,
    last (chain s') = Some blk /\ hash blk = h
    /\ accepts now1 p blk = true /\ accepts_render now1 p blk = true
    /\ chain (handler_new_block now1 now2 p blk) = chain s'
    /\ chain (new_block now1 now2 p blk) = chain s'
    /\ (total_minted p = total_minted s ->
        total_minted (handler_new_block now1 now2 p blk) = total_minted s').
Proof.
  intros Hmp Hnow Hp.
  destruct (mined_block_passes fuel now now1 s s' p miner h Hmp Hnow Hp)
    as (blk & Hc & Hh & Hx & Htr & Hpass).
  assert (Ha : accepts now1 p blk = true) by by apply accepts_spec.
  assert (Har : accepts_render now1 p blk = true) by by apply accepts_render_spec.
  destruct (inbound_block_shape now1 now2 p blk Htr) as (Hs1 & Hs2).
  exists blk. split; [by rewrite Hc, last_snoc|]. split; [done|].
  split; [done|]. split; [done|].
  split; [by rewrite (Hs1 Ha), Hp, Hc|]. split; [by rewrite (Hs2 Har), Hp, Hc|].
  intros Htm. rewrite handler_new_block_eq, Ha. cbn [total_minted].
  apply mine_pending_inv in Hmp as (blk' & head' & _ & _ & _ & Hs'). rewrite Hs'.
  cbn [total_minted]. by rewrite Htm.
Qed.



(** ** Persistence *)

Lemma imap_load_block (clock : nat -> Qc) (c : list Block) :
  stamped c -> imap (fun i b => load_block (clock i) b) c = c.
Proof.
  intros Hc. revert clock. induction Hc as [|b c Hb _ IH]; intros clock; [done|].
  rewrite imap_cons, load_block_truthy by done. f_equal.
  apply (IH (fun i => clock (S i))).
Qed.

Lemma load_block_fields (now : Qc) (b : Block) :
  load_block now b = with_timestamp b (timestamp (load_block now b)).
Proof.
  unfold load_block, Block_init, with_timestamp, set_hash.
  by cbn [index prev_hash timestamp transactions nonce hash].
Qed.

(** X19 — a snapshot read back.  [load_state] on what [save_state] wrote gives
    the node back, chain, mempool, ledger, counter and peers, provided every
    block of the chain has a non-zero timestamp.  Whatever the snapshot
    holds, each block is loaded with the index, previous hash, transactions,
    nonce and hash it is stored with: nothing is recomputed or compared, and
    only a zero timestamp is replaced, by the time of loading. *)
Theorem save_then_load {P : Type} `{Countable P} (clock : nat -> Qc)
    (s : State) (peers : gset P) :
  (stamped (chain s) -> load_state clock (Some (save_state s peers)) = (s, peers))
  /\ (forall data : Snapshot P,
        length (chain (fst (load_state clock (Some data))))
        = length (snap_chain data)
        /\ forall i b, snap_chain data !! i = Some b ->
             exists b', chain (fst (load_state clock (Some data))) !! i = Some b'
               /\ b' = with_timestamp b (timestamp b')
               /\ (truthy (timestamp b) = true -> b' = b)
               /\ (truthy (timestamp b) = false -> timestamp b' = PyFloat (clock i))).
Proof.
  split.
  - intros Hs. unfold load_state, save_state.
    cbn [snap_chain snap_pending_tx snap_balances snap_total_minted snap_peers
         from_option id].
    rewrite imap_load_block by done. rewrite list_to_set_elements_L. by destruct s.
  - intros data. cbn [load_state fst chain]. split; [apply length_imap|].
    intros i b Hi. exists (load_block (clock i) b).
    rewrite list_lookup_imap, Hi. cbn [fmap option_fmap option_map].
    split; [done|]. split; [apply load_block_fields|]. split.
    + apply load_block_truthy.
    + intros Hf. unfold load_block. rewrite Block_init_falsy by done. done.
Qed.

Lemma stamped_snoc (c : list Block) (b : Block) :
  stamped c -> truthy (timestamp b) = true -> stamped (c ++ [b]).
Proof. intros Hc Hb. apply Forall_app. split; [done|]. by constructor. Qed.

(** X20 — timestamps along a run.  With a clock that never reads zero, the
    genesis block and every block appended by mining or by either inbound
    handler has a non-zero timestamp (the handlers replace a declared zero
    by the clock), so the snapshot of such a node reads back as the node. *)
Theorem timestamps_stay_nonzero (s : State) :
  stamped (chain s) ->
  (forall now, now <> 0 -> stamped (chain (create_genesis now)))
  /\ (forall fuel now miner, now <> 0 ->
        stamped (chain (snd (mine_pending fuel now s miner))))
  /\ (forall now now' d, now' <> 0 ->
        stamped (chain (handler_new_block now now' s d))
        /\ stamped (chain (new_block now now' s d)))
  /\ (forall sender recipient amount d,
        stamped (chain (snd (add_transaction s sender recipient amount)))
        /\ stamped (chain (handler_new_tx s d))).
Proof.
  intros Hs.
  assert (Hinit : forall now' d, now' <> 0 ->
            truthy (timestamp (Block_init now' (index d) (prev_hash d)
                                 (transactions d) (Some (timestamp d)) (nonce d)))
            = true).
  { intros now' d Hnow. destruct (truthy (timestamp d)) eqn:Ht.
    - by rewrite Block_init_truthy.
    - rewrite Block_init_falsy by done. by apply truthy_clock. }
  split; [|split; [|split]].
  - intros now Hnow. constructor; [|constructor]. by apply truthy_clock.
  - intros fuel now miner Hnow. rewrite mine_pending_eq.
    destruct (last (chain s)); [|done].
    destruct (mine _ _ _) as [blk| |] eqn:Hm; [|done..]. cbn [snd chain].
    apply stamped_snoc; [done|].
    destruct (mine_returns_inv _ _ _ _ Hm) as (_ & _ & _ & -> & _).
    by apply truthy_clock.
  - intros now now' d Hnow. rewrite handler_new_block_eq, new_block_eq. split.
    + destruct (accepts now s d); [|done]. cbn [chain].
      apply stamped_snoc; [done|]. by apply Hinit.
    + destruct (accepts_render now s d); [|done]. cbn [chain].
      apply stamped_snoc; [done|]. by apply Hinit.
  - intros sender recipient amount d.
    destruct (add_transaction_chain s sender recipient amount) as [-> _].
    by destruct (handler_new_tx_chain s d) as [-> _].
Qed.

(** ** Peers *)

Lemma add_peers_good {P : Type} {EqP : EqDecision P} {CountP : Countable P} (good : list P)
    (tail : list (option P)) (peers : gset P) :
  add_peers peers ((Some <$> good) ++ tail)
  = add_peers (peers ∪ list_to_set good) tail.
Proof.
  revert peers. induction good as [|p good IH]; intros peers.
  - cbn [fmap list_fmap app]. by rewrite list_to_set_nil, (right_id_L ∅ (∪)).
  - cbn [fmap list_fmap app add_peers]. rewrite IH, list_to_set_cons.
    by rewrite (comm_L (∪) {[p]} peers), (assoc_L (∪)).
Qed.

Lemma add_peers_grows {P : Type} {EqP : EqDecision P} {CountP : Countable P} (nodes : list (option P))
    (peers : gset P) :
  peers ⊆ add_peers peers nodes
  /\ forall p, p ∈ add_peers peers nodes -> p ∈ peers \/ Some p ∈ nodes.
Proof.
  revert peers. induction nodes as [|[q|] nodes IH]; intros peers; cbn [add_peers].
  - split; [done|auto].
  - destruct (IH ({[q]} ∪ peers)) as [IH1 IH2].
    split; [etrans; [apply union_subseteq_r|exact IH1]|].
    intros p Hp. destruct (IH2 p Hp) as [Hin|Hin]; [|right; by right].
    apply elem_of_union in Hin as [->%elem_of_singleton|Hin]; [|auto].
    right. by left.
  - split; [done|auto].
Qed.

(** X21 — the set of peers.  [load_bootstrap] and [fetch_tracker] never remove
    a peer and add none that the response does not list; a response that
    cannot be read adds nothing; a well-formed response adds every entry; an
    entry that lacks a key ends the loop, the entries before it stay and the
    entries after it are not looked at.  [register_peer] adds the host to
    what was there. *)
Theorem peers_only_grow {P : Type} {EqP : EqDecision P} {CountP : Countable P} (peers : gset P)
    (response : option (list (option P))) :
  peers ⊆ load_bootstrap peers response
  /\ (forall p, p ∈ load_bootstrap peers response ->
        p ∈ peers \/ exists nodes, response = Some nodes /\ Some p ∈ nodes)
  /\ load_bootstrap peers None = peers
  /\ (forall good,
        load_bootstrap peers (Some (Some <$> good)) = peers ∪ list_to_set good)
  /\ (forall good rest,
        load_bootstrap peers (Some ((Some <$> good) ++ None :: rest))
        = peers ∪ list_to_set good)
  /\ fetch_tracker peers response = load_bootstrap peers response
  /\ (forall (hosts : gset string) (host : string),
        hosts ⊆ register_peer hosts host /\ host ∈ register_peer hosts host
        /\ register_peer (register_peer hosts host) host = register_peer hosts host).
Proof.
  split; [|split; [|split; [|split; [|split; [|split]]]]].
  - destruct response as [nodes|]; [|done]. apply add_peers_grows.
  - intros p Hp. destruct response as [nodes|]; [|by left].
    destruct (proj2 (add_peers_grows nodes peers) p Hp); [by left|].
    right. by exists nodes.
  - done.
  - intros good. cbn [load_bootstrap].
    rewrite <- (app_nil_r (Some <$> good)). by rewrite add_peers_good.
  - intros good rest. cbn [load_bootstrap]. by rewrite add_peers_good.
  - done.
  - intros hosts host. unfold register_peer. split; [apply union_subseteq_r|].
    split; [by apply elem_of_union_l, elem_of_singleton|].
    by rewrite (assoc_L (∪)), (idemp_L (∪)).
Qed.

(** ** The settlement in binary64 *)


(** X23 — the counter needs no rounding.  In every state reached from
    genesis [total_minted] is a whole number of rewards, at most 3 360 000 of
    them, and such multiples of 6.25 are floats, as are their differences
    from MAX_SUPPLY: [MAX_SUPPLY - total_minted] and
    [total_minted + reward] are computed without rounding, so the reward and
    the counter after a mine are the same with and without it. *)
Theorem counter_needs_no_rounding (b : binding) (s : State) :
  reachable b s ->
  representable (total_minted s)
  /\ representable (MAX_SUPPLY - total_minted s)
  /\ representable (total_minted s + reward (total_minted s))
  /\ reward64 (total_minted s) = reward (total_minted s)
  /\ forall fuel now miner,
       total_minted (snd (mine_pending64 fuel now s miner))
       = total_minted (snd (mine_pending fuel now s miner)).
Proof.
  intros Hr. destruct (reachable_total_minted_multiple _ _ Hr) as (k & Hk & Ht).
  assert (Hrew := reward_of_multiple k Hk). rewrite <- Ht in Hrew.
  assert (H4 : Qc_of_Z 4 <> 0).
  { rewrite <- Z2Qc_inj_0. intros Hc%Z2Qc_inj. lia. }
  assert (E1 : total_minted s = Qc_of_Z (25 * k) * / Qc_of_Z 4).
  { rewrite Ht, BLOCK_REWARD_quarters, Z2Qc_inj_mul. by field. }
  assert (E2 : MAX_SUPPLY - total_minted s
               = Qc_of_Z (25 * (3360000 - k)) * / Qc_of_Z 4).
  { rewrite Ht, MAX_SUPPLY_in_rewards, BLOCK_REWARD_quarters.
    rewrite Z2Qc_inj_mul, Z2Qc_inj_sub. by field. }
  assert (R1 : representable (total_minted s)).
  { rewrite E1. apply representable_quarters. lia. }
  assert (R2 : representable (MAX_SUPPLY - total_minted s)).
  { rewrite E2. apply representable_quarters. lia. }
  assert (R3 : representable (total_minted s + reward (total_minted s))).
  { rewrite Hrew. case_decide.
    - replace (total_minted s + BLOCK_REWARD)
        with (Qc_of_Z (25 * (k + 1)) * / Qc_of_Z 4).
      + apply representable_quarters. lia.
      + rewrite Ht, BLOCK_REWARD_quarters, Z2Qc_inj_mul, Z2Qc_inj_add, Z2Qc_inj_1.
        by field.
    - by rewrite Qcplus_0_r. }
  assert (R4 : reward64 (total_minted s) = reward (total_minted s))
    by by apply reward64_exact.
  split; [done|]. split; [done|]. split; [done|]. split; [done|].
  intros fuel now miner. unfold mine_pending64, mine_pending.
  destruct (last (chain s)) as [head|]; [|done].
  destruct (call_mine _ _ _ _) as [blk| |]; [|done..].
  cbn [snd total_minted]. rewrite R4. by destruct R3 as [-> _].
Qed.

End Node.

(** * The model run on concrete values *)

Example decimal_repr_examples :
  decimal_repr t_genesis = "1700000000.5"%string
  /\ decimal_repr BLOCK_REWARD = "6.25"%string
  /\ decimal_repr (Qc_of_Z 5) = "5.0"%string
  /\ decimal_repr (- Q2Qc (1 # 8)) = "-0.125"%string.
Proof. vm_compute. auto. Qed.

(** [python_repr] on the instants and amounts of the runs below, on the two
    amounts that are not exact in binary, and where the exponent sets in. *)
Example python_repr_examples :
  python_repr t_genesis = "1700000000.5"%string
  /\ python_repr t_mine4 = "1700273570.5"%string
  /\ python_repr BLOCK_REWARD = "6.25"%string
  /\ python_repr (Qc_of_Z 5) = "5.0"%string
  /\ python_repr tenth = "0.1"%string
  /\ python_repr fifth = "0.2"%string
  /\ python_repr (binary64 (tenth + fifth)) = "0.30000000000000004"%string
  /\ python_repr (binary64 (Q2Qc (1 # 3))) = "0.3333333333333333"%string
  /\ python_repr (Qc_of_Z 9007199254740992) = "9007199254740992.0"%string
  /\ python_repr (Qc_of_Z 10000000000000000) = "1e+16"%string
  /\ python_repr (binary64 (Q2Qc (1 # 100000))) = "1e-05"%string
  /\ python_repr (- Q2Qc (1 # 8)) = "-0.125"%string.
Proof. vm_compute. repeat split. Qed.

(** The two amounts as fractions: the floats nearest to 1/10 and 2/10. *)
Example binary64_examples :
  tenth = Q2Qc (3602879701896397 # 36028797018963968)
  /\ fifth = Q2Qc (3602879701896397 # 18014398509481984)
  /\ binary64 (tenth + fifth) = Q2Qc (1351079888211149 # 4503599627370496)
  /\ tenth + fifth <> binary64 (tenth + fifth)
  /\ binary64 BLOCK_REWARD = BLOCK_REWARD
  /\ binary64 (Qc_of_Z 9007199254740993) = Qc_of_Z 9007199254740992.
Proof.
  repeat split; try (apply Qc_is_canon; vm_compute; reflexivity).
  intros Hc. apply (f_equal this) in Hc. vm_compute in Hc. discriminate Hc.
Qed.

(** [binary64] against the floats of the processor: the two amounts as the
    quotients 1.0 / 10.0 and 2.0 / 10.0, and every sum and difference of the
    run in which A, holding 12.5, pays 0.1 and 0.2 to B. *)
Example binary64_on_hardware :
  let hw := to_hardware in
  let ten := hw (Qc_of_Z 10) in
  (float_value (hw BLOCK_REWARD) = BLOCK_REWARD
   /\ float_value (hw tenth) = tenth /\ float_value (hw fifth) = fifth)
  /\ (float_value (PrimFloat.div (hw 1) ten) = tenth
      /\ float_value (PrimFloat.div (hw (Qc_of_Z 2)) ten) = fifth)
  /\ (float_value (PrimFloat.add (hw BLOCK_REWARD) (hw BLOCK_REWARD))
      = binary64 (BLOCK_REWARD + BLOCK_REWARD)
      /\ float_value (PrimFloat.sub (hw (Q2Qc (25 # 2))) (hw tenth))
         = binary64 (Q2Qc (25 # 2) - tenth)
      /\ float_value (PrimFloat.sub (PrimFloat.sub (hw (Q2Qc (25 # 2))) (hw tenth))
                        (hw fifth))
         = binary64 (binary64 (Q2Qc (25 # 2) - tenth) - fifth)
      /\ float_value (PrimFloat.add (hw tenth) (hw fifth)) = binary64 (tenth + fifth)
      /\ float_value (PrimFloat.sub (hw (Qc_of_Z 21000000)) (hw BLOCK_REWARD))
         = binary64 (MAX_SUPPLY - BLOCK_REWARD)).
Proof.
  cbv zeta. repeat split; apply Qc_is_canon; vm_compute; reflexivity.
Qed.

(** Hashes as the Python classes compute them: the genesis block of a node
    started at 1700000000.5, and two blocks built on it. *)
Example concrete_hashes :
  head_hash (genesis_state decimal_repr)
  = "3179efdfc10f91e9d3f3f9b3d46dbc93d22da2e1de960306fd8f108eda79b157"%string
  /\ hash (peer_block decimal_repr 0)
  = "0f0daef98e836906325af96bd056b95e66ce8417d2a426ff07d8b9d461d98d90"%string
  /\ hash (peer_block decimal_repr 1)
  = "bddf7fcbd548291937fd3d032f86fb6f0b0b7219bd9e362757d30a5198227783"%string.
Proof. vm_compute. auto. Qed.

(** The scenario of the specification, end to end, on blockchain.py: a
    transfer without funds is refused, a first mine pays the miner, a funded
    transfer enters the mempool, a second mine settles it. *)
Example end_to_end_scenario :
  let r := decimal_repr in
  let s0 := genesis_state r in
  let try1 := add_transaction s0 "A" "B" (PyFloat (Qc_of_Z 10)) in
  let mined1 := mine_pending r 3 t_mine1 (snd try1) "A" in
  let try2 := add_transaction (snd mined1) "A" "B" (PyFloat (Qc_of_Z 5)) in
  let mined2 := mine_pending r 4 t_mine2 (snd try2) "A" in
  fst try1 = Raises (ValueError "Insufficient balance")
  /\ fst mined1
     = Returns "0000e39b119f10cbf18158b0a8ed5bca60dfe9c189e527fa82dda3fc5b308598"%string
  /\ balance (balances (snd mined1)) "A" = BLOCK_REWARD
  /\ total_minted (snd mined1) = BLOCK_REWARD
  /\ length (chain (snd mined1)) = 2%nat
  /\ fst try2 = Returns (mkTx "A" "B" (PyFloat (Qc_of_Z 5)))
  /\ fst mined2
     = Returns "0000d4c5104f8cac33ea503e2ace7e6a4a335703a1151571a7fd4c4c1cb1d173"%string
  /\ balance (balances (snd mined2)) "A" = Q2Qc (15 # 2)
  /\ balance (balances (snd mined2)) "B" = Qc_of_Z 5
  /\ total_minted (snd mined2) = Q2Qc (25 # 2)
  /\ length (chain (snd mined2)) = 3%nat
  /\ pending_tx (snd mined2) = [].
Proof.
  vm_compute. repeat split; apply Qc_is_canon; reflexivity.
Qed.


(** ** The properties at concrete values, and where the specification fails *)

(** C8 at a concrete block: the search started at 1700120822.5 on the genesis
    block ends at nonce 2 with four leading zeros. *)
Lemma mine_proof_of_work_witness :
  exists b',
    mine decimal_repr 3
      (Block_init decimal_repr t_mine1 1 (head_hash (genesis_state decimal_repr))
         [] None 0) DIFFICULTY = Returns b'
    /\ nonce b' = 2%Z
    /\ (DIFFICULTY <= Z.of_nat (leading_zeros (hash b')))%Z.
Proof.
  set (b0 := Block_init decimal_repr t_mine1 1
               (head_hash (genesis_state decimal_repr)) [] None 0).
  assert (H : exists b', mine decimal_repr 3 b0 DIFFICULTY = Returns b'
                         /\ nonce b' = 2%Z).
  { eexists. split; [vm_compute; reflexivity | reflexivity]. }
  destruct H as (b' & Hm & Hn). exists b'.
  split; [exact Hm|]. split; [exact Hn|].
  exact (proj1 (mine_proof_of_work decimal_repr b0 DIFFICULTY) 3%nat b' Hm).
Defined.

(** C6 at the genesis state: A owns nothing and cannot send 10. *)
Lemma add_transaction_checks_balance_witness :
  let s := genesis_state decimal_repr in
  let r := add_transaction s "A" "B" (PyInt 10) in
  balance (balances s) "A" < num_val (PyInt 10)
  /\ fst r = Raises (ValueError "Insufficient balance")
  /\ pending_tx (snd r) = pending_tx s
  /\ same_ledger (balances (snd r)) (balances s).
Proof.
  assert (H : balance (balances (genesis_state decimal_repr)) "A" < num_val (PyInt 10))
    by (vm_compute; reflexivity).
  split; [exact H|].
  exact (proj1 (proj2 (add_transaction_checks_balance
                         (genesis_state decimal_repr) "A" "B" (PyInt 10))) H).
Defined.

(** C3 at the genesis state. *)
Lemma mine_pending_render_raises_witness :
  chain (genesis_state decimal_repr) <> []
  /\ mine_pending_render decimal_repr 3 t_mine1 (genesis_state decimal_repr) "A"
     = (Raises (AttributeError "mine"), genesis_state decimal_repr).
Proof.
  assert (H : chain (genesis_state decimal_repr) <> []).
  { apply chain_ok_nonempty. apply (chain_ok_genesis decimal_repr t_genesis). }
  split; [exact H|].
  exact (proj1 (proj2 (mine_pending_render_raises decimal_repr 3 t_mine1
                         (genesis_state decimal_repr) "A")) H).
Defined.

(** C5 on the chain of a node that accepted one inbound block. *)
Lemma reachable_chain_linkage_witness :
  let s := handler_new_block decimal_repr 0 0 (genesis_state decimal_repr)
             (peer_block decimal_repr 0) in
  reachable decimal_repr Socket s
  /\ length (chain s) = 2%nat
  /\ (exists g, chain s !! 0%nat = Some g
        /\ index g = 0%Z /\ prev_hash g = zeros 64 /\ transactions g = [])
  /\ (forall (i : nat) (blk : Block),
        (0 < i)%nat -> chain s !! i = Some blk ->
        index blk = Z.of_nat i
        /\ exists p, chain s !! (i - 1)%nat = Some p /\ prev_hash blk = hash p).
Proof.
  set (s := handler_new_block decimal_repr 0 0 (genesis_state decimal_repr)
              (peer_block decimal_repr 0)).
  assert (Hr : reachable decimal_repr Socket s).
  { exact (reach_step decimal_repr Socket _ _
             (reach_genesis decimal_repr Socket t_genesis)
             (step_new_block decimal_repr 0 0 (genesis_state decimal_repr)
                (peer_block decimal_repr 0))). }
  assert (Hl : length (chain s) = 2%nat) by (vm_compute; reflexivity).
  exact (conj Hr (conj Hl (reachable_chain_linkage decimal_repr Socket s Hr))).
Defined.

(** C7 with two blocks built on the genesis block, nonces 0 and 1. *)
Lemma same_height_race_witness :
  let s := genesis_state decimal_repr in
  let d1 := peer_block decimal_repr 0 in
  let d2 := peer_block decimal_repr 1 in
  let s1 := handler_new_block decimal_repr 0 0 s d1 in
  index d2 = index d1
  /\ accepts decimal_repr 0 s d1 = true
  /\ accepts decimal_repr 0 s d2 = true
  /\ length (chain s1) = S (length (chain s))
  /\ (index d2 =? Z.of_nat (length (chain s1)))%Z = false
  /\ handler_new_block decimal_repr 0 0 s1 d2 = s1.
Proof.
  assert (Hi : index (peer_block decimal_repr 1) = index (peer_block decimal_repr 0))
    by (vm_compute; reflexivity).
  assert (Ha : accepts decimal_repr 0 (genesis_state decimal_repr)
                 (peer_block decimal_repr 0) = true) by (vm_compute; reflexivity).
  assert (Ha' : accepts decimal_repr 0 (genesis_state decimal_repr)
                  (peer_block decimal_repr 1) = true) by (vm_compute; reflexivity).
  exact (conj Hi (conj Ha (conj Ha'
           (proj1 (same_height_race decimal_repr 0 0 0 0
                     (genesis_state decimal_repr) (peer_block decimal_repr 0)
                     (peer_block decimal_repr 1) Hi) Ha)))).
Defined.


(** C10, amended, on the first mine of the run: 21000000 - 0, 0 + 6.25 and
    0 + 6.25 need no rounding. *)
Lemma ledger_sums_to_total_minted_witness :
  let s := genesis_state decimal_repr in
  let s' := snd (mine_pending64 decimal_repr 3 t_mine1 s "A") in
  sum_balances (balances s) = total_minted s
  /\ exact_mine s "A"
  /\ total_minted s' = BLOCK_REWARD
  /\ sum_balances (balances s') = total_minted s'.
Proof.
  set (s := genesis_state decimal_repr).
  assert (H0 : sum_balances (balances s) = total_minted s)
    by (vm_compute; reflexivity).
  assert (Hex : exact_mine s "A").
  { split; [|split; [|split; [|exact I]]];
      (split; [apply Qc_is_canon; vm_compute; reflexivity|]);
      split; vm_compute; reflexivity. }
  assert (H1 : total_minted (snd (mine_pending64 decimal_repr 3 t_mine1 s "A"))
               = BLOCK_REWARD) by (apply Qc_is_canon; vm_compute; reflexivity).
  exact (conj H0 (conj Hex (conj H1
           (proj1 (proj2 (proj2 (ledger_sums_to_total_minted decimal_repr)))
              3%nat t_mine1 s "A" H0 Hex)))).
Defined.

(** C10 — counterexample.  A mines at 1700120822.5, sends 0.1 and then 0.2
    to B, and mines again at 1700273570.5.  Before the second mine the
    balances sum to the counter, 6.25.  After it A holds 12.200000000000001
    and B holds 0.30000000000000004, which is 5 * 2^-52 more than the
    counter, 12.5: both 12.4 - 0.2 and 0.1 + 0.2 were rounded upwards. *)
Lemma ledger_sum_drifts :
  let r := python_repr in
  let m1 := mine_pending64 r 3 t_mine1 (genesis_state r) "A" in
  let tx1 := add_transaction (snd m1) "A" "B" (PyFloat tenth) in
  let tx2 := add_transaction (snd tx1) "A" "B" (PyFloat fifth) in
  let s := snd tx2 in
  let m2 := mine_pending64 r 3 t_mine4 s "A" in
  let s' := snd m2 in
  (fst m1
   = Returns "0000e39b119f10cbf18158b0a8ed5bca60dfe9c189e527fa82dda3fc5b308598"%string
   /\ fst tx1 = Returns (mkTx "A" "B" (PyFloat tenth))
   /\ fst tx2 = Returns (mkTx "A" "B" (PyFloat fifth))
   /\ fst m2
      = Returns "000023f623beb9a5c6acd065efb494db3060a2b75104d9850a506ef9cbc82e5e"%string)
  /\ (r (total_minted s) = "6.25"%string
      /\ sum_balances (balances s) = total_minted s)
  /\ (r (balance (balances s') "A") = "12.200000000000001"%string
      /\ r (balance (balances s') "B") = "0.30000000000000004"%string
      /\ r (total_minted s') = "12.5"%string)
  /\ sum_balances (balances s') = total_minted s' + Q2Qc (5 # 4503599627370496)
  /\ sum_balances (balances s') <> total_minted s'.
Proof.
  intros r m1 tx1 tx2 s m2 s'.
  assert (Hruns : fst m1
     = Returns "0000e39b119f10cbf18158b0a8ed5bca60dfe9c189e527fa82dda3fc5b308598"%string
     /\ fst tx1 = Returns (mkTx "A" "B" (PyFloat tenth))
     /\ fst tx2 = Returns (mkTx "A" "B" (PyFloat fifth))
     /\ fst m2
        = Returns "000023f623beb9a5c6acd065efb494db3060a2b75104d9850a506ef9cbc82e5e"%string).
  { vm_compute. repeat split; f_equal; f_equal; f_equal; apply Qc_is_canon; reflexivity. }
  assert (Hbefore : r (total_minted s) = "6.25"%string
                    /\ sum_balances (balances s) = total_minted s).
  { split; [vm_compute; reflexivity | apply Qc_is_canon; vm_compute; reflexivity]. }
  assert (Hafter : r (balance (balances s') "A") = "12.200000000000001"%string
                   /\ r (balance (balances s') "B") = "0.30000000000000004"%string
                   /\ r (total_minted s') = "12.5"%string).
  { vm_compute. repeat split. }
  assert (Hsum : sum_balances (balances s')
                 = total_minted s' + Q2Qc (5 # 4503599627370496))
    by (apply Qc_is_canon; vm_compute; reflexivity).
  split; [exact Hruns|]. split; [exact Hbefore|]. split; [exact Hafter|].
  split; [exact Hsum|].
  rewrite Hsum. intros Hc. apply (f_equal this) in Hc. vm_compute in Hc. discriminate Hc.
Qed.

(** C1 — counterexample.  The peer's block with nonce 1 passes the three
    checks and is accepted by both bindings, although its hash begins with no
    zero at all. *)
Lemma is_valid_block_ignores_difficulty :
  let s := genesis_state decimal_repr in
  let d := peer_block decimal_repr 1 in
  index d = Z.of_nat (length (chain s))
  /\ prev_hash d = head_hash s
  /\ recomputed_hash decimal_repr 0 d = hash d
  /\ hash d = "bddf7fcbd548291937fd3d032f86fb6f0b0b7219bd9e362757d30a5198227783"%string
  /\ (Z.of_nat (leading_zeros (hash d)) <? DIFFICULTY)%Z = true
  /\ is_valid_block_render decimal_repr 0 s d = Returns true
  /\ is_valid_block decimal_repr 0 s d = Returns true
  /\ accepts decimal_repr 0 s d = true.
Proof. vm_compute. repeat split. Qed.

(** C1, amended, at the same block. *)
Lemma is_valid_block_three_checks_witness :
  let s := genesis_state decimal_repr in
  let d := peer_block decimal_repr 1 in
  passes_checks decimal_repr 0 s d
  /\ is_valid_block_render decimal_repr 0 s d = Returns true.
Proof.
  set (s := genesis_state decimal_repr).
  set (d := peer_block decimal_repr 1).
  assert (Ha : accepts decimal_repr 0 s d = true) by (vm_compute; reflexivity).
  destruct (is_valid_block_three_checks decimal_repr 0 s d)
    as (Hrender & Hsocket & _).
  exact (conj (proj1 Hsocket Ha) (proj2 Hrender (proj1 Hsocket Ha))).
Defined.




(** [fraction_repr] meets what the encoding theorem asks of a float printer. *)
Lemma fraction_repr_inj (q q' : Qc) : fraction_repr q = fraction_repr q' -> q = q'.
Proof.
  unfold fraction_repr. intros H.
  apply split_at_char in H as [Hn Hd];
    [| by apply pretty_Z_avoids; [apply digit_not_slash|]..].
  apply (inj pretty) in Hn. apply (inj pretty) in Hd.
  apply Qc_is_canon. destruct q as [[n d] ?], q' as [[n' d'] ?]. cbn in *.
  injection Hd as ->. subst. reflexivity.
Qed.

Lemma fraction_repr_not_int (q : Qc) (z : Z) : fraction_repr q <> pretty z.
Proof.
  intros H. assert (Hc := f_equal (contains "/") H).
  rewrite (pretty_Z_avoids "/" z) in Hc by (apply digit_not_slash || done).
  unfold fraction_repr in Hc. rewrite contains_append in Hc.
  rewrite (contains_append "/" "/") in Hc. cbn [contains] in Hc.
  rewrite Ascii.eqb_refl in Hc. cbn in Hc. by rewrite orb_true_r in Hc.
Qed.

Lemma fraction_repr_no_comma (q : Qc) : contains "," (fraction_repr q) = false.
Proof.
  unfold fraction_repr. rewrite !contains_append.
  rewrite !pretty_Z_avoids by (apply digit_not_comma || done). reflexivity.
Qed.


(** ** The further properties at concrete values *)


(** X4 at genesis: A, who owns nothing, may send -5 to B. *)
Lemma negative_amount_accepted_witness :
  let s := genesis_state decimal_repr in
  let n := PyInt (-5) in
  num_val n < 0
  /\ 0 <= balance (balances s) "A"
  /\ fst (add_transaction s "A" "B" n) = Returns (mkTx "A" "B" n)
  /\ pending_tx (snd (add_transaction s "A" "B" n)) = [mkTx "A" "B" n].
Proof.
  intros s n.
  assert (Hn : num_val n < 0) by (vm_compute; reflexivity).
  assert (Hb : 0 <= balance (balances s) "A")
    by (vm_compute; intros Hc; discriminate Hc).
  destruct (negative_amount_accepted s "A" "B" n Hn Hb) as [Hr Hp].
  exact (conj Hn (conj Hb (conj Hr Hp))).
Defined.

(** X6 on the peer's block with nonce 0, whose timestamp is 1700000001.5. *)
Lemma inbound_block_stored_as_received_witness :
  let s := genesis_state decimal_repr in
  let d := peer_block decimal_repr 0 in
  truthy (timestamp d) = true
  /\ accepts decimal_repr t_mine1 s d = true
  /\ accepts_render decimal_repr t_mine1 s d = true
  /\ chain (handler_new_block decimal_repr t_mine1 t_mine2 s d) = chain s ++ [d]
  /\ chain (new_block decimal_repr t_mine1 t_mine2 s d) = chain s ++ [d]
  /\ handler_new_block decimal_repr t_mine1 t_mine2 s d
     = new_block decimal_repr t_mine1 t_mine2 s d.
Proof.
  intros s d.
  assert (Ht : truthy (timestamp d) = true) by (vm_compute; reflexivity).
  assert (Ha : accepts decimal_repr t_mine1 s d = true) by (vm_compute; reflexivity).
  assert (Har : accepts_render decimal_repr t_mine1 s d = true)
    by (vm_compute; reflexivity).
  destruct (inbound_block_stored_as_received decimal_repr t_mine1 t_mine2 s d Ht)
    as (_ & H1 & H2 & H3).
  exact (conj Ht (conj Ha (conj Har (conj (H1 Ha) (conj (H2 Har) H3))))).
Defined.

(** X7 on a block that declares timestamp 0 and the digest for 1700000001.5:
    it is accepted at that instant and refused at another, and the block the socket
    handler stores a moment later carries a hash that is not its digest. *)
Lemma zero_timestamp_takes_the_clock_witness :
  let s := genesis_state decimal_repr in
  let d := unstamped_block decimal_repr in
  let stored := with_timestamp d (PyFloat t_mine1) in
  truthy (timestamp d) = false
  /\ accepts decimal_repr t_peer s d = true
  /\ accepts decimal_repr t_mine1 s d = false
  /\ chain (handler_new_block decimal_repr t_peer t_mine1 s d) = chain s ++ [stored]
  /\ hash d = compute_hash decimal_repr (with_timestamp d (PyFloat t_peer))
  /\ hash stored <> compute_hash decimal_repr stored.
Proof.
  intros s d stored.
  assert (Ht : truthy (timestamp d) = false) by (vm_compute; reflexivity).
  assert (Ha : accepts decimal_repr t_peer s d = true) by (vm_compute; reflexivity).
  assert (Hn : accepts decimal_repr t_mine1 s d = false) by (vm_compute; reflexivity).
  assert (Hd : hash stored <> compute_hash decimal_repr stored).
  { intros Hc. vm_compute in Hc. discriminate Hc. }
  destruct (zero_timestamp_takes_the_clock decimal_repr t_peer t_mine1 s d Ht)
    as (_ & Hs & _).
  destruct (Hs Ha) as [Hc Hh].
  exact (conj Ht (conj Ha (conj Hn (conj Hc (conj Hh Hd))))).
Defined.

(** X8 on an HTTP node that took the peer's block. *)
Lemma render_stored_hash_is_digest_witness :
  let s := new_block decimal_repr 0 0 (genesis_state decimal_repr)
             (peer_block decimal_repr 0) in
  reachable decimal_repr Render s
  /\ length (chain s) = 2%nat
  /\ chain_hashed decimal_repr (chain s).
Proof.
  intros s.
  assert (Hr : reachable decimal_repr Render s).
  { exact (reach_step decimal_repr Render _ _
             (reach_genesis decimal_repr Render t_genesis)
             (step_new_block_render decimal_repr 0 0 (genesis_state decimal_repr)
                (peer_block decimal_repr 0))). }
  assert (Hl : length (chain s) = 2%nat) by (vm_compute; reflexivity).
  exact (conj Hr (conj Hl (render_stored_hash_is_digest decimal_repr s Hr))).
Defined.

(** X9 on the first mine of the run. *)
Lemma socket_stored_hash_is_digest_witness :
  let s := genesis_state decimal_repr in
  chain_hashed decimal_repr (chain s)
  /\ length (chain (funded_state decimal_repr)) = 2%nat
  /\ chain_hashed decimal_repr (chain (funded_state decimal_repr)).
Proof.
  intros s.
  assert (Hg : chain_hashed decimal_repr (chain s))
    by apply (chain_hashed_genesis decimal_repr t_genesis).
  assert (Hl : length (chain (funded_state decimal_repr)) = 2%nat)
    by (vm_compute; reflexivity).
  exact (conj Hg (conj Hl
           (proj1 (socket_stored_hash_is_digest decimal_repr s Hg) 3%nat t_mine1
              "A"%string))).
Defined.

(** X10 on a node loaded from a snapshot whose chain is empty. *)
Lemma empty_chain_is_stuck_witness :
  chain empty_state = []
  /\ mine_pending decimal_repr 3 t_mine1 empty_state "A"
     = (Raises IndexError, empty_state)
  /\ handler_new_block decimal_repr t_peer t_peer empty_state
       (peer_block decimal_repr 0) = empty_state
  /\ new_block decimal_repr t_peer t_peer empty_state (peer_block decimal_repr 0)
     = empty_state.
Proof.
  assert (He : chain empty_state = []) by reflexivity.
  destruct (empty_chain_is_stuck decimal_repr Socket empty_state He)
    as (Hm & _ & Hh & _).
  destruct (Hh t_peer t_peer (peer_block decimal_repr 0)) as [H1 H2].
  exact (conj He (conj (proj1 (Hm 3%nat t_mine1 "A"%string)) (conj H1 H2))).
Defined.

(** X11 on two nodes started one second apart: the block built on the genesis
    block of the first is refused by the second. *)
Lemma diverged_heads_share_no_block_witness :
  let s1 := genesis_state decimal_repr in
  let s2 := create_genesis decimal_repr t_peer in
  let d := peer_block decimal_repr 0 in
  head_hash s1 <> head_hash s2
  /\ accepts decimal_repr t_mine1 s1 d = true
  /\ accepts decimal_repr t_mine1 s2 d = false
  /\ accepts_render decimal_repr t_mine1 s2 d = false.
Proof.
  intros s1 s2 d.
  assert (Hne : head_hash s1 <> head_hash s2).
  { intros Hc. vm_compute in Hc. discriminate Hc. }
  assert (Ha : accepts decimal_repr t_mine1 s1 d = true) by (vm_compute; reflexivity).
  assert (Har : accepts_render decimal_repr t_mine1 s1 d = true)
    by (vm_compute; reflexivity).
  destruct (diverged_heads_share_no_block decimal_repr t_mine1 t_mine1 s1 s2 d Hne)
    as [H1 H2].
  exact (conj Hne (conj Ha (conj (H1 Ha) (H2 Har)))).
Defined.

(** X12 on the run from genesis to the node that took the peer's block. *)
Lemma chain_is_append_only_witness :
  let s := genesis_state decimal_repr in
  let s' := handler_new_block decimal_repr 0 0 s (peer_block decimal_repr 0) in
  rtc (step decimal_repr Socket) s s'
  /\ length (chain s') = 2%nat
  /\ chain s `prefix_of` chain s'
  /\ (length (chain s) <= length (chain s'))%nat.
Proof.
  intros s s'.
  assert (Hr : rtc (step decimal_repr Socket) s s').
  { apply rtc_once. apply step_new_block. }
  assert (Hl : length (chain s') = 2%nat) by (vm_compute; reflexivity).
  destruct (chain_is_append_only decimal_repr Socket s s' Hr) as (H1 & H2 & _).
  exact (conj Hr (conj Hl (conj H1 H2))).
Defined.

(** X13 on the node that took the peer's block: one reward counted. *)
Lemma total_minted_whole_rewards_witness :
  let s := handler_new_block decimal_repr 0 0 (genesis_state decimal_repr)
             (peer_block decimal_repr 0) in
  reachable decimal_repr Socket s
  /\ total_minted s = Qc_of_Z 1 * BLOCK_REWARD
  /\ (reward (total_minted s) = BLOCK_REWARD \/ reward (total_minted s) = 0).
Proof.
  intros s.
  assert (Hr : reachable decimal_repr Socket s).
  { exact (reach_step decimal_repr Socket _ _
             (reach_genesis decimal_repr Socket t_genesis)
             (step_new_block decimal_repr 0 0 (genesis_state decimal_repr)
                (peer_block decimal_repr 0))). }
  assert (Ht : total_minted s = Qc_of_Z 1 * BLOCK_REWARD)
    by (apply Qc_is_canon; vm_compute; reflexivity).
  exact (conj Hr (conj Ht (proj2 (total_minted_whole_rewards decimal_repr Socket s Hr)))).
Defined.

(** X15 on the first mine of the run. *)
Lemma mine_pending_appends_block_witness :
  let s := genesis_state decimal_repr in
  let m := mine_pending decimal_repr 3 t_mine1 s "A" in
  let h := "0000e39b119f10cbf18158b0a8ed5bca60dfe9c189e527fa82dda3fc5b308598"%string in
  fst m = Returns h
  /\ exists blk head,
       chain (snd m) = chain s ++ [blk] /\ last (chain s) = Some head
       /\ index blk = Z.of_nat (length (chain s)) /\ prev_hash blk = hash head
       /\ timestamp blk = PyFloat t_mine1 /\ transactions blk = pending_tx s
       /\ hash blk = h /\ h = compute_hash decimal_repr blk
       /\ (DIFFICULTY <= Z.of_nat (leading_zeros h))%Z
       /\ is_hexdigest h
       /\ pending_tx (snd m) = [].
Proof.
  intros s m h.
  assert (Hf : fst m = Returns h) by (vm_compute; reflexivity).
  assert (Hm : m = (Returns h, snd m)).
  { rewrite <- Hf. apply surjective_pairing. }
  exact (conj Hf (mine_pending_appends_block decimal_repr 3 t_mine1 s (snd m)
                    "A"%string h Hm)).
Defined.

(** X16 on the first mine of the run, with a peer that is still at
    genesis. *)
Lemma mined_block_accepted_by_peer_witness :
  let s := genesis_state decimal_repr in
  let m := mine_pending decimal_repr 3 t_mine1 s "A" in
  let h := "0000e39b119f10cbf18158b0a8ed5bca60dfe9c189e527fa82dda3fc5b308598"%string in
  fst m = Returns h
  /\ t_mine1 <> 0
  /\ exists blk,
       last (chain (snd m)) = Some blk /\ hash blk = h
       /\ accepts decimal_repr t_mine2 s blk = true
       /\ accepts_render decimal_repr t_mine2 s blk = true
       /\ chain (handler_new_block decimal_repr t_mine2 t_mine3 s blk) = chain (snd m)
       /\ chain (new_block decimal_repr t_mine2 t_mine3 s blk) = chain (snd m)
       /\ total_minted (handler_new_block decimal_repr t_mine2 t_mine3 s blk)
          = total_minted (snd m).
Proof.
  intros s m h.
  assert (Hf : fst m = Returns h) by (vm_compute; reflexivity).
  assert (Hm : m = (Returns h, snd m)).
  { rewrite <- Hf. apply surjective_pairing. }
  assert (Hnow : t_mine1 <> 0).
  { intros Hc. apply (f_equal this) in Hc. vm_compute in Hc. discriminate Hc. }
  destruct (mined_block_accepted_by_peer decimal_repr 3 t_mine1 t_mine2 t_mine3
              s (snd m) s "A"%string h Hm Hnow eq_refl)
    as (blk & H1 & H2 & H3 & H4 & H5 & H6 & H7).
  split; [exact Hf|]. split; [exact Hnow|]. exists blk.
  exact (conj H1 (conj H2 (conj H3 (conj H4 (conj H5 (conj H6 (H7 eq_refl))))))).
Defined.

(** X19 on the genesis node with one peer. *)
Lemma save_then_load_witness :
  let s := genesis_state decimal_repr in
  let peers : gset (string * Z) := {[ ("10.0.0.1"%string, 5000%Z) ]} in
  stamped (chain s)
  /\ load_state decimal_repr (fun _ => t_mine1) (Some (save_state s peers))
     = (s, peers).
Proof.
  intros s peers.
  assert (Hs : stamped (chain s)).
  { constructor; [vm_compute; reflexivity | constructor]. }
  exact (conj Hs (proj1 (save_then_load decimal_repr (fun _ => t_mine1) s peers) Hs)).
Defined.

(** X20 on the first mine of the run. *)
Lemma timestamps_stay_nonzero_witness :
  let s := genesis_state decimal_repr in
  stamped (chain s)
  /\ t_mine1 <> 0
  /\ stamped (chain (funded_state decimal_repr)).
Proof.
  intros s.
  assert (Hs : stamped (chain s)).
  { constructor; [vm_compute; reflexivity | constructor]. }
  assert (Hnow : t_mine1 <> 0).
  { intros Hc. apply (f_equal this) in Hc. vm_compute in Hc. discriminate Hc. }
  destruct (timestamps_stay_nonzero decimal_repr s Hs) as (_ & Hm & _).
  exact (conj Hs (conj Hnow (Hm 3%nat t_mine1 "A"%string Hnow))).
Defined.



(** X1 on the first mine of the run: two increments, and the two nonces
    before miss the target. *)
Lemma mine_first_nonce_witness :
  let b := Block_init decimal_repr t_mine1 1 (head_hash (genesis_state decimal_repr))
             [] None 0 in
  exists b',
    mine decimal_repr 3 b DIFFICULTY = Returns b'
    /\ nonce b' = 2%Z
    /\ exists k : nat, (k < 3)%nat /\ b' = Nat.iter k (next_nonce decimal_repr) b
         /\ nonce b' = (nonce b + Z.of_nat k)%Z
         /\ meets_target DIFFICULTY b' = true
         /\ forall j : nat, (j < k)%nat ->
              meets_target DIFFICULTY (Nat.iter j (next_nonce decimal_repr) b) = false.
Proof.
  intros b.
  assert (H : exists b', mine decimal_repr 3 b DIFFICULTY = Returns b'
                         /\ nonce b' = 2%Z).
  { eexists. split; [vm_compute; reflexivity | reflexivity]. }
  destruct H as (b' & Hm & Hn). exists b'.
  split; [exact Hm|]. split; [exact Hn|].
  exact (proj1 (proj1 (mine_first_nonce decimal_repr 3 b b' DIFFICULTY)) Hm).
Defined.

(** X5 on a node where A holds 6.25: the same payment of 5 arrives twice over the
    network and is queued once; submitted twice at home it is queued twice. *)
Lemma handler_new_tx_idempotent_witness :
  let s := mkState [] [] {[ "A"%string := BLOCK_REWARD ]} BLOCK_REWARD in
  let d := mkTx "A" "B" (PyFloat (Qc_of_Z 5)) in
  num_val (amount d) <= balance (balances s) (sender d)
  /\ pending_tx (handler_new_tx s d) = [d]
  /\ handler_new_tx (handler_new_tx s d) d = handler_new_tx s d
  /\ pending_tx (snd (add_transaction
                        (snd (add_transaction s (sender d) (recipient d) (amount d)))
                        (sender d) (recipient d) (amount d)))
     = [d; d].
Proof.
  intros s d.
  assert (Hle : num_val (amount d) <= balance (balances s) (sender d))
    by (vm_compute; intros Hc; discriminate Hc).
  destruct (handler_new_tx_idempotent s d) as (_ & Hi & Hq).
  destruct (Hq Hle eq_refl) as [H1 H2].
  exact (conj Hle (conj H1 (conj Hi H2))).
Defined.



(** X23 on the node after its first mine: the counter stands at 6.25, and
    21000000 - 6.25 and 6.25 + 6.25 are floats. *)
Lemma counter_needs_no_rounding_witness :
  let s := funded_state decimal_repr in
  reachable decimal_repr Socket s
  /\ total_minted s = BLOCK_REWARD
  /\ binary64 (MAX_SUPPLY - total_minted s) = MAX_SUPPLY - total_minted s
  /\ binary64 (total_minted s + reward (total_minted s))
     = total_minted s + reward (total_minted s)
  /\ reward64 (total_minted s) = reward (total_minted s).
Proof.
  intros s.
  assert (Hr : reachable decimal_repr Socket s).
  { exact (reach_step decimal_repr Socket _ _
             (reach_genesis decimal_repr Socket t_genesis)
             (step_mine_pending decimal_repr 3 t_mine1 (genesis_state decimal_repr)
                "A")). }
  assert (Ht : total_minted s = BLOCK_REWARD)
    by (apply Qc_is_canon; vm_compute; reflexivity).
  destruct (counter_needs_no_rounding decimal_repr Socket s Hr)
    as (_ & [H2 _] & [H3 _] & H4 & _).
  exact (conj Hr (conj Ht (conj H2 (conj H3 H4)))).
Defined.
